(** * PTSC certificate verification: a shallow embedding of [script.js]

    The page script is embedded function by function.  JavaScript strings
    are sequences of UTF-16 code units, the document and the few globals
    the script mutates form one [World] record, and every function that
    touches them is a computation in a small state-and-exception monad so
    that [try]/[catch]/[finally] read as in the source.  What the browser
    supplies (the query string, the fetched document, the viewport, and
    whether a platform call raises) is collected in a [Host] record. *)

From Stdlib Require Import QArith Qminmax.
From stdpp Require Import gmap strings list.
From Stdlib Require Import Ascii String.
From Stdlib Require Import Lqa.
From Stdlib Require Import Qpower Qabs.

Local Open Scope Z_scope.

(* ================================================================== *)
(** ** JavaScript strings and values *)
(* ================================================================== *)

(** A string is its sequence of UTF-16 code units. *)
Abbreviation jsstring := (list N).

(** Source literals are ASCII; [js] gives their code units. *)
Definition js (s : string) : jsstring :=
  (fun a => N.of_nat (Ascii.nat_of_ascii a)) <$> String.list_ascii_of_string s.

(** ECMAScript [WhiteSpace] and [LineTerminator] code points, the set
    stripped by [String.prototype.trim] and matched by [\s]. *)
Definition is_ws (c : N) : bool :=
  bool_decide (c ∈ [9; 10; 11; 12; 13; 32; 160; 5760; 8232; 8233; 8239; 8287;
                    12288; 65279]%N)
  || ((8192 <=? c) && (c <=? 8202))%N.

Fixpoint trim_start (s : jsstring) : jsstring :=
  match s with
  | c :: r => if is_ws c then trim_start r else s
  | [] => []
  end.

Definition trim_end (s : jsstring) : jsstring := rev (trim_start (rev s)).

(** [s.trim()] *)
Definition trim (s : jsstring) : jsstring := trim_end (trim_start s).

(** [a === b] on two strings. *)
Definition str_eq (a b : jsstring) : bool := bool_decide (a = b).

(** The values the script handles where a string is expected: a property
    read or an argument is [undefined], [null], a string, or an object
    without a [trim] method, such as the functions and the prototype that
    every object inherits from [Object.prototype]. *)
Inductive Value : Type :=
| VUndefined
| VNull
| VString (s : jsstring)
| VObject.

(** ToBoolean *)
Definition truthy (v : Value) : bool :=
  match v with
  | VUndefined | VNull => false
  | VString s => negb (str_eq s [])
  | VObject => true
  end.

(** [v || ''] *)
Definition or_empty (v : Value) : Value :=
  if truthy v then v else VString [].

(** A field of a parsed JSON record that the data model types as a
    string: [None] when the record has no such field. *)
Definition field (f : option jsstring) : Value :=
  match f with
  | Some s => VString s
  | None => VUndefined
  end.

(* ================================================================== *)
(** ** Certificate records and what the host supplies *)
(* ================================================================== *)

Record Certificate : Type := mkCertificate {
  cert_id : option jsstring;
  cert_key : option jsstring;
  cert_name : option jsstring;
  cert_event : option jsstring;
  cert_type : option jsstring;
  cert_date : option jsstring;
  cert_issuer : option jsstring
}.

(** The parsed body of [certificates.json]: [data.certificates] is an
    array of records, or is missing. *)
Record Data : Type := mkData {
  certificates : option (list Certificate)
}.

(** [fetch('certificates.json')] followed by [response.json()]:
    a transport error, a non-success status and a malformed body are all
    [FetchFailed]. *)
Inductive FetchOutcome : Type :=
| FetchFailed
| FetchOk (data : Data).

(** The statements of [updateCertificateDisplay] that may raise. *)
Inductive RenderStep : Type :=
| WriteType | WriteName | WriteEvent | WriteDate | WriteIssueDate
| WriteIssuer | WriteId | WriteTitle.

(** The platform and library calls of [downloadCertificate] that may
    raise or reject. *)
Inductive ExportStep : Type :=
| Rasterize | EncodeImage | LoadPdfLibrary | EmbedImage | SavePdf.

Record Host : Type := mkHost {
  (** [new URLSearchParams(window.location.search).entries()] *)
  search_entries : list (jsstring * jsstring);
  fetched : FetchOutcome;
  innerWidth : Z;
  innerHeight : Z;
  (** [new Date(s).toLocaleDateString('en-US', options)] *)
  toLocaleDateString : jsstring -> jsstring;
  render_raises : RenderStep -> bool;
  export_raises : ExportStep -> bool
}.

(* ================================================================== *)
(** ** The document and the script's globals *)
(* ================================================================== *)

Inductive Event : Type :=
| EvDelay (ms : Z)
| EvFetch (url : string)
| EvRasterize
| EvDownload (filename : jsstring).

(** A registered listener: event type, the closure's identity, and the
    capture flag. *)
Record Listener : Type := mkListener {
  l_type : string;
  l_fn : nat;
  l_capture : bool
}.

#[global] Instance Listener_eq_dec : EqDecision Listener.
Proof. solve_decision. Defined.

Record World : Type := mkWorld {
  (** [style.display] of [#loadingState], [#errorState] and
      [#certificateState]; [None] when the element is not in the page *)
  loadingState : option string;
  errorState : option string;
  certificateState : option string;
  (** [.certificate-container]: [None] when absent, otherwise the
      factor of its [scale(..)] transform once one has been applied *)
  container : option (option Q);
  (** [.certificate-state]: its [style.minHeight] in pixels *)
  wrapper : option (option Q);
  (** [textContent] of the elements found by [getElementById] *)
  textContent : gmap string jsstring;
  title : jsstring;
  (** [content] of the [meta] elements, by [property] *)
  meta : gmap string jsstring;
  (** the global [_protectionHandlers] and the document's listeners *)
  _protectionHandlers : option (nat * nat);
  listeners : list Listener;
  next_closure : nat;
  (** children of [document.body], by node identity *)
  body_children : list nat;
  (** [style.visibility] of [.navigation] *)
  navigation : option string;
  cursor : string;
  (** [window.location.href] once the script has assigned it *)
  location_href : option jsstring;
  alerts : list string;
  console : list string;
  trace : list Event
}.

(** Field updates. *)
Definition set_loadingState (v : option string) (w : World) : World :=
  mkWorld v (errorState w) (certificateState w) (container w) (wrapper w)
    (textContent w) (title w) (meta w) (_protectionHandlers w) (listeners w)
    (next_closure w) (body_children w) (navigation w) (cursor w)
    (location_href w) (alerts w) (console w) (trace w).
Definition set_errorState (v : option string) (w : World) : World :=
  mkWorld (loadingState w) v (certificateState w) (container w) (wrapper w)
    (textContent w) (title w) (meta w) (_protectionHandlers w) (listeners w)
    (next_closure w) (body_children w) (navigation w) (cursor w)
    (location_href w) (alerts w) (console w) (trace w).
Definition set_certificateState (v : option string) (w : World) : World :=
  mkWorld (loadingState w) (errorState w) v (container w) (wrapper w)
    (textContent w) (title w) (meta w) (_protectionHandlers w) (listeners w)
    (next_closure w) (body_children w) (navigation w) (cursor w)
    (location_href w) (alerts w) (console w) (trace w).
Definition set_container (v : option (option Q)) (w : World) : World :=
  mkWorld (loadingState w) (errorState w) (certificateState w) v (wrapper w)
    (textContent w) (title w) (meta w) (_protectionHandlers w) (listeners w)
    (next_closure w) (body_children w) (navigation w) (cursor w)
    (location_href w) (alerts w) (console w) (trace w).
Definition set_wrapper (v : option (option Q)) (w : World) : World :=
  mkWorld (loadingState w) (errorState w) (certificateState w) (container w)
    v (textContent w) (title w) (meta w) (_protectionHandlers w)
    (listeners w) (next_closure w) (body_children w) (navigation w)
    (cursor w) (location_href w) (alerts w) (console w) (trace w).
Definition set_textContent (v : gmap string jsstring) (w : World) : World :=
  mkWorld (loadingState w) (errorState w) (certificateState w) (container w)
    (wrapper w) v (title w) (meta w) (_protectionHandlers w) (listeners w)
    (next_closure w) (body_children w) (navigation w) (cursor w)
    (location_href w) (alerts w) (console w) (trace w).
Definition set_title (v : jsstring) (w : World) : World :=
  mkWorld (loadingState w) (errorState w) (certificateState w) (container w)
    (wrapper w) (textContent w) v (meta w) (_protectionHandlers w)
    (listeners w) (next_closure w) (body_children w) (navigation w)
    (cursor w) (location_href w) (alerts w) (console w) (trace w).
Definition set_meta (v : gmap string jsstring) (w : World) : World :=
  mkWorld (loadingState w) (errorState w) (certificateState w) (container w)
    (wrapper w) (textContent w) (title w) v (_protectionHandlers w)
    (listeners w) (next_closure w) (body_children w) (navigation w)
    (cursor w) (location_href w) (alerts w) (console w) (trace w).
Definition set_protectionHandlers (v : option (nat * nat)) (w : World) : World :=
  mkWorld (loadingState w) (errorState w) (certificateState w) (container w)
    (wrapper w) (textContent w) (title w) (meta w) v (listeners w)
    (next_closure w) (body_children w) (navigation w) (cursor w)
    (location_href w) (alerts w) (console w) (trace w).
Definition set_listeners (v : list Listener) (w : World) : World :=
  mkWorld (loadingState w) (errorState w) (certificateState w) (container w)
    (wrapper w) (textContent w) (title w) (meta w) (_protectionHandlers w) v
    (next_closure w) (body_children w) (navigation w) (cursor w)
    (location_href w) (alerts w) (console w) (trace w).
Definition set_next_closure (v : nat) (w : World) : World :=
  mkWorld (loadingState w) (errorState w) (certificateState w) (container w)
    (wrapper w) (textContent w) (title w) (meta w) (_protectionHandlers w)
    (listeners w) v (body_children w) (navigation w) (cursor w)
    (location_href w) (alerts w) (console w) (trace w).
Definition set_body_children (v : list nat) (w : World) : World :=
  mkWorld (loadingState w) (errorState w) (certificateState w) (container w)
    (wrapper w) (textContent w) (title w) (meta w) (_protectionHandlers w)
    (listeners w) (next_closure w) v (navigation w) (cursor w)
    (location_href w) (alerts w) (console w) (trace w).
Definition set_navigation (v : option string) (w : World) : World :=
  mkWorld (loadingState w) (errorState w) (certificateState w) (container w)
    (wrapper w) (textContent w) (title w) (meta w) (_protectionHandlers w)
    (listeners w) (next_closure w) (body_children w) v (cursor w)
    (location_href w) (alerts w) (console w) (trace w).
Definition set_cursor (v : string) (w : World) : World :=
  mkWorld (loadingState w) (errorState w) (certificateState w) (container w)
    (wrapper w) (textContent w) (title w) (meta w) (_protectionHandlers w)
    (listeners w) (next_closure w) (body_children w) (navigation w) v
    (location_href w) (alerts w) (console w) (trace w).
Definition set_location_href (v : option jsstring) (w : World) : World :=
  mkWorld (loadingState w) (errorState w) (certificateState w) (container w)
    (wrapper w) (textContent w) (title w) (meta w) (_protectionHandlers w)
    (listeners w) (next_closure w) (body_children w) (navigation w)
    (cursor w) v (alerts w) (console w) (trace w).
Definition set_alerts (v : list string) (w : World) : World :=
  mkWorld (loadingState w) (errorState w) (certificateState w) (container w)
    (wrapper w) (textContent w) (title w) (meta w) (_protectionHandlers w)
    (listeners w) (next_closure w) (body_children w) (navigation w)
    (cursor w) (location_href w) v (console w) (trace w).
Definition set_console (v : list string) (w : World) : World :=
  mkWorld (loadingState w) (errorState w) (certificateState w) (container w)
    (wrapper w) (textContent w) (title w) (meta w) (_protectionHandlers w)
    (listeners w) (next_closure w) (body_children w) (navigation w)
    (cursor w) (location_href w) (alerts w) v (trace w).
Definition set_trace (v : list Event) (w : World) : World :=
  mkWorld (loadingState w) (errorState w) (certificateState w) (container w)
    (wrapper w) (textContent w) (title w) (meta w) (_protectionHandlers w)
    (listeners w) (next_closure w) (body_children w) (navigation w)
    (cursor w) (location_href w) (alerts w) (console w) v.

(* ================================================================== *)
(** ** Computations: state plus exceptions *)
(* ================================================================== *)

(** A statement either completes normally or raises; the raised value is
    represented by its message. *)
Inductive Completion (A : Type) : Type :=
| Normal (a : A)
| Thrown (e : string).
Arguments Normal {A} a.
Arguments Thrown {A} e.

Definition M (A : Type) : Type := World -> Completion A * World.

#[global] Instance M_ret : MRet M := fun A a w => (Normal a, w).

#[global] Instance M_bind : MBind M := fun A B k m w =>
  match m w with
  | (Normal a, w') => k a w'
  | (Thrown e, w') => (Thrown e, w')
  end.

Definition throw {A : Type} (e : string) : M A := fun w => (Thrown e, w).

(** [try { body } catch (e) { handler }] *)
Definition try_catch {A : Type} (body : M A) (handler : string -> M A) : M A :=
  fun w =>
    match body w with
    | (Normal a, w') => (Normal a, w')
    | (Thrown e, w') => handler e w'
    end.

(** [try { body } finally { cleanup }] *)
Definition try_finally {A : Type} (body : M A) (cleanup : M ()) : M A :=
  fun w =>
    match body w with
    | (c, w') =>
        match cleanup w' with
        | (Normal _, w'') => (c, w'')
        | (Thrown e, w'') => (Thrown e, w'')
        end
    end.

(** A statement that only updates the world. *)
Definition modify (f : World -> World) : M () := fun w => (Normal (), f w).

Definition gets {A : Type} (f : World -> A) : M A := fun w => (Normal (f w), w).

(** The world a computation leaves behind, and what it returned. *)
Definition exec {A : Type} (m : M A) (w : World) : World := (m w).2.
Definition result {A : Type} (m : M A) (w : World) : Completion A := (m w).1.

Definition console_error (msg : string) : M () :=
  modify (fun w => set_console (console w ++ [msg]) w).

Definition alert (msg : string) : M () :=
  modify (fun w => set_alerts (alerts w ++ [msg]) w).

Definition emit (e : Event) : M () :=
  modify (fun w => set_trace (trace w ++ [e]) w).

(** A platform call that raises exactly when the host says so. *)
Definition guard_raise (raises : bool) (msg : string) : M () :=
  if raises then throw msg else mret ().

(** [s.trim()] on a value: the trimmed string on a string, a [TypeError]
    on a value without a [trim] method. *)
Definition str_trim (v : Value) : M jsstring :=
  match v with
  | VString s => mret (trim s)
  | _ => throw "TypeError: trim is not a function"
  end.

(** [array.find(callback)] with a callback that may raise. *)
Fixpoint array_find {A : Type} (callback : A -> M bool) (l : list A)
  : M (option A) :=
  match l with
  | [] => mret None
  | x :: r =>
      hit ← callback x;
      if hit : bool then mret (Some x) else array_find callback r
  end.

(* ================================================================== *)
(** ** Utility functions *)
(* ================================================================== *)

(** The own properties of an object literal [{}] are a finite map; a read
    falls through to [Object.prototype], every property of which is a
    function or an object. *)
Definition object_prototype : list jsstring :=
  js <$> ["constructor"; "__defineGetter__"; "__defineSetter__";
          "hasOwnProperty"; "__lookupGetter__"; "__lookupSetter__";
          "isPrototypeOf"; "propertyIsEnumerable"; "toString"; "valueOf";
          "__proto__"; "toLocaleString"]%string.

(** [obj[key]] *)
Definition get (obj : gmap jsstring jsstring) (key : jsstring) : Value :=
  match obj !! key with
  | Some v => VString v
  | None => if bool_decide (key ∈ object_prototype) then VObject else VUndefined
  end.

(** One turn of the loop of [parseURLParams]. *)
Definition parseURLParams_step (result : gmap jsstring jsstring)
  (entry : jsstring * jsstring) : gmap jsstring jsstring :=
  let '(key, value) := entry in
  if negb (truthy (get result key)) then <[key := value]> result else result.

Definition parseURLParams (h : Host) : gmap jsstring jsstring :=
  foldl parseURLParams_step ∅ (search_entries h).

(** [if (el) el.style.display = v] *)
Definition style_set (v : string) (el : option string) : option string :=
  (fun _ => v) <$> el.

Definition showLoading (w : World) : World :=
  let w := set_loadingState (style_set "block" (loadingState w)) w in
  let w := set_errorState (style_set "none" (errorState w)) w in
  set_certificateState (style_set "none" (certificateState w)) w.

Definition showError (w : World) : World :=
  let w := set_loadingState (style_set "none" (loadingState w)) w in
  let w := set_errorState (style_set "block" (errorState w)) w in
  set_certificateState (style_set "none" (certificateState w)) w.

(* ================================================================== *)
(** ** Responsive certificate scaling *)
(* ================================================================== *)

(** A number of the script is an IEEE 754 double.  Every finite double
    is a rational, so a number is a rational here, and an arithmetic
    operation gives the exact result rounded to the nearest double, ties
    to even.  Doubles carry 53 significant bits; their exponent range is
    left out, since the numbers of this script (quotients, products and
    sums made of viewport sizes of at most 32 bits) stay far inside it.
    Integers of that size, their differences, comparison, [Math.min] and
    [Math.max] are exact. *)

(** The integer nearest to [x], the even one of two equally near. *)
Definition rne (x : Q) : Z :=
  let q := Qnum x / Zpos (Qden x) in
  let r := Qnum x mod Zpos (Qden x) in
  match 2 * r ?= Zpos (Qden x) with
  | Lt => q
  | Gt => q + 1
  | Eq => if Z.even q then q else q + 1
  end.

(** The exponent [e] of a positive [x]: [2^52 <= x / 2^e < 2^53]. *)
Definition binade (x : Q) : Z :=
  let e := Z.log2 (Qnum x) - Z.log2 (Zpos (Qden x)) - 52 in
  if Qle_bool (2 ^ 52) (x * 2 ^ (- e)) then e else e - 1.

Definition round_pos (x : Q) : Q :=
  let e := binade x in
  (inject_Z (rne (x * 2 ^ (- e))) * 2 ^ e)%Q.

(** The double nearest to [x]. *)
Definition round_double (x : Q) : Q :=
  let x := Qred x in
  match Qnum x with
  | 0 => 0%Q
  | Zpos _ => round_pos x
  | Zneg _ => (- round_pos (- x))%Q
  end.

(** [a / b], [a * b] and [a + b] on numbers. *)
Definition Number_divide (a b : Q) : Q := round_double (a / b).
Definition Number_multiply (a b : Q) : Q := round_double (a * b).
Definition Number_add (a b : Q) : Q := round_double (a + b).

Definition Math_min2 (a b : Q) : Q := if Qle_bool b a then b else a.
Definition Math_max2 (a b : Q) : Q := if Qle_bool a b then b else a.

(** [Math.min(x, ...rest)] and [Math.max(x, ...rest)] *)
Definition Math_min (x : Q) (rest : list Q) : Q := foldl Math_min2 x rest.
Definition Math_max (x : Q) (rest : list Q) : Q := foldl Math_max2 x rest.

(** The factor computed by [applyResponsiveScale]. *)
Definition responsive_scale (viewportWidth viewportHeight : Z) : Q :=
  let baseWidth := 1123 in
  let baseHeight := 794 in
  let horizontalPadding := if viewportWidth <? 768 then 20 else 40 in
  let verticalPadding := if viewportWidth <? 768 then 100 else 200 in
  let availableWidth := viewportWidth - horizontalPadding in
  let availableHeight := viewportHeight - verticalPadding in
  let scaleX := Number_divide (inject_Z availableWidth) (inject_Z baseWidth) in
  let scaleY := Number_divide (inject_Z availableHeight) (inject_Z baseHeight) in
  let scale := Math_min scaleX [scaleY; 1%Q] in
  Math_max scale [0.25%Q].

Definition applyResponsiveScale (h : Host) (w : World) : World :=
  match container w with
  | None => w
  | Some _ =>
      let baseHeight := 794 in
      let scale := responsive_scale (innerWidth h) (innerHeight h) in
      let w := set_container (Some (Some scale)) w in
      let scaledHeight := Number_multiply (inject_Z baseHeight) scale in
      match wrapper w with
      | Some _ => set_wrapper (Some (Some (Number_add scaledHeight 40))) w
      | None => w
      end
  end.

(* ================================================================== *)
(** ** Client-side protection (deterrence) *)
(* ================================================================== *)

(** [document.addEventListener]: an identical registration is ignored. *)
Definition addEventListener (l : Listener) (w : World) : World :=
  if bool_decide (l ∈ listeners w) then w
  else set_listeners (listeners w ++ [l]) w.

Definition removeEventListener (l : Listener) (w : World) : World :=
  set_listeners (filter (fun x => x ≠ l) (listeners w)) w.

Definition enableClientProtection (w : World) : World :=
  match _protectionHandlers w with
  | Some _ => w
  | None =>
      let onContext := next_closure w in
      let onKey := S (next_closure w) in
      let w := set_next_closure (S (S (next_closure w))) w in
      let w := addEventListener (mkListener "contextmenu" onContext false) w in
      let w := addEventListener (mkListener "keydown" onKey true) w in
      set_protectionHandlers (Some (onContext, onKey)) w
  end.

Definition disableClientProtection (w : World) : World :=
  match _protectionHandlers w with
  | None => w
  | Some (onContext, onKey) =>
      let w := removeEventListener (mkListener "contextmenu" onContext false) w in
      let w := removeEventListener (mkListener "keydown" onKey true) w in
      set_protectionHandlers None w
  end.

Definition showCertificate (h : Host) : M () :=
  modify (fun w => set_loadingState (style_set "none" (loadingState w)) w);;
  modify (fun w => set_errorState (style_set "none" (errorState w)) w);;
  certificateState ← gets certificateState;
  match certificateState with
  | Some _ =>
      modify (set_certificateState (Some "block"%string));;
      try_catch (modify enableClientProtection) (fun _ => mret ());;
      try_catch (modify (applyResponsiveScale h)) (fun _ => mret ())
  | None => mret ()
  end.

(* ================================================================== *)
(** ** Certificate validation *)
(* ================================================================== *)

Definition fetchCertificates (h : Host) : M Data :=
  try_catch
    (emit (EvFetch "certificates.json");;
     match fetched h with
     | FetchOk data => mret data
     | FetchFailed => throw "fetch failed"
     end)
    (fun _ =>
       console_error "Error fetching certificates:";;
       throw "Failed to load certificate database").

(** The callback handed to [find]. *)
Definition matches (normalizedId normalizedKey : jsstring) (cert : Certificate)
  : M bool :=
  certId ← str_trim (or_empty (field (cert_id cert)));
  certKey ← str_trim (or_empty (field (cert_key cert)));
  mret (str_eq certId normalizedId && str_eq certKey normalizedKey).

Definition validateCertificate (h : Host) (id key : Value)
  : M (option Certificate) :=
  try_catch
    (data ← fetchCertificates h;
     normalizedId ← str_trim (or_empty id);
     normalizedKey ← str_trim (or_empty key);
     certs ← match certificates data with
             | Some certs => mret certs
             | None => throw "TypeError: certificates is undefined"
             end;
     (* [certificate || null]: a record is an object, hence truthy *)
     array_find (matches normalizedId normalizedKey) certs)
    (fun _ =>
       console_error "Error validating certificate:";;
       mret None).

(* ================================================================== *)
(** ** Certificate display *)
(* ================================================================== *)

(** Serialisation of a text node by [innerHTML]. *)
Definition escape_char (c : N) : jsstring :=
  if (c =? 38)%N then js "&amp;"
  else if (c =? 160)%N then js "&nbsp;"
  else if (c =? 60)%N then js "&lt;"
  else if (c =? 62)%N then js "&gt;"
  else [c].

Definition sanitizeText (text : jsstring) : jsstring :=
  List.concat (escape_char <$> text).

Definition formatDate (h : Host) (dateString : jsstring) : jsstring :=
  toLocaleDateString h dateString.

(** [if (el && value) el.textContent = render(value)], where the
    assignment is the statement [step]. *)
Definition write_text (h : Host) (step : RenderStep) (el : string)
  (value : option jsstring) (render : jsstring -> jsstring) : M () :=
  present ← gets (fun w => bool_decide (is_Some (textContent w !! el)));
  if present && truthy (field value) then
    guard_raise (render_raises h step) "render failure";;
    modify (fun w =>
      set_textContent (<[el := render (default [] value)]> (textContent w)) w)
  else mret ().

(** A record field inside a template literal. *)
Definition interpolate (f : option jsstring) : jsstring :=
  default (js "undefined") f.

Definition updateOpenGraphMeta (certificate : Certificate) : M () :=
  try_catch
    (modify (fun w => set_meta (<["og:title"%string :=
        interpolate (cert_name certificate) ++ js " - " ++
        interpolate (cert_type certificate) ++ js " - PTSC KNIT"]> (meta w)) w);;
     modify (fun w => set_meta (<["og:description"%string :=
        interpolate (cert_name certificate) ++
        js " has successfully completed " ++
        interpolate (cert_event certificate) ++
        js " at Programming and Tech Skill Club, KNIT Sultanpur."]> (meta w)) w))
    (fun _ => console_error "Error updating Open Graph meta:").

Definition updateCertificateDisplay (h : Host) (certificate : Certificate)
  : M () :=
  try_catch
    (write_text h WriteType "certificateType" (cert_type certificate) sanitizeText;;
     write_text h WriteName "recipientName" (cert_name certificate) sanitizeText;;
     write_text h WriteEvent "eventName" (cert_event certificate) sanitizeText;;
     write_text h WriteDate "completionDate" (cert_date certificate) (formatDate h);;
     write_text h WriteIssueDate "issueDate" (cert_date certificate) (formatDate h);;
     write_text h WriteIssuer "issuerName" (cert_issuer certificate) sanitizeText;;
     write_text h WriteId "certificateId" (cert_id certificate) sanitizeText;;
     (if truthy (field (cert_name certificate)) then
        guard_raise (render_raises h WriteTitle) "render failure";;
        modify (set_title (js "Certificate - " ++
                           default [] (cert_name certificate) ++
                           js " - PTSC KNIT"))
      else mret ());;
     updateOpenGraphMeta certificate)
    (fun _ =>
       console_error "Error updating certificate display:";;
       modify showError).

(* ================================================================== *)
(** ** Main verification function *)
(* ================================================================== *)

Definition verifyCertificate (h : Host) : M () :=
  modify showLoading;;
  try_catch
    (let params := parseURLParams h in
     let certificateId := get params (js "id") in
     let certificateKey := get params (js "key") in
     if negb (truthy certificateId) || negb (truthy certificateKey) then
       console_error "Missing required parameters: id and key";;
       modify showError
     else
       emit (EvDelay 1000);;
       certificate ← validateCertificate h certificateId certificateKey;
       match certificate with
       | Some certificate =>
           updateCertificateDisplay h certificate;;
           showCertificate h
       | None => modify showError
       end)
    (fun _ =>
       console_error "Error during certificate verification:";;
       modify showError).

(* ================================================================== *)
(** ** Index page form handling *)
(* ================================================================== *)

(** The fragment of regular expressions used by the form: literal
    characters, character classes, sequencing and counted repetition.
    Every atom consumes exactly one code unit, so matching is
    deterministic; [re_match] returns the unread rest of the input. *)
Inductive Regex : Type :=
| REmpty
| RChar (c : N)
| RClass (p : N -> bool)
| RSeq (r1 r2 : Regex)
| RRepeat (r : Regex) (n : nat).

Fixpoint re_match (r : Regex) (s : jsstring) : option jsstring :=
  match r with
  | REmpty => Some s
  | RChar c =>
      match s with
      | x :: t => if (x =? c)%N then Some t else None
      | [] => None
      end
  | RClass p =>
      match s with
      | x :: t => if p x then Some t else None
      | [] => None
      end
  | RSeq r1 r2 =>
      match re_match r1 s with
      | Some t => re_match r2 t
      | None => None
      end
  | RRepeat r n =>
      (fix rep (n : nat) (s : jsstring) : option jsstring :=
         match n with
         | O => Some s
         | S k =>
             match re_match r s with
             | Some t => rep k t
             | None => None
             end
         end) n s
  end.

(** [/^r$/.test(s)]: without the [m] flag the anchors are the two ends of
    the input. *)
Definition regex_test (r : Regex) (s : jsstring) : bool :=
  bool_decide (re_match r s = Some []).

Definition RString (s : string) : Regex :=
  foldr (fun c r => RSeq (RChar c) r) REmpty (js s).

(** [\d] *)
Definition is_digit (c : N) : bool := ((48 <=? c) && (c <=? 57))%N.

(** [[a-zA-Z0-9]] *)
Definition is_alnum (c : N) : bool :=
  ((97 <=? c) && (c <=? 122) || (65 <=? c) && (c <=? 90)
   || (48 <=? c) && (c <=? 57))%N.

(** [/^PTSC\d{4}-\d{4}$/] *)
Definition id_pattern : Regex :=
  RSeq (RString "PTSC")
    (RSeq (RRepeat (RClass is_digit) 4)
       (RSeq (RChar 45) (RRepeat (RClass is_digit) 4))).

(** [/^[a-zA-Z0-9]{10}$/] *)
Definition key_pattern : Regex := RRepeat (RClass is_alnum) 10.

(** Characters [encodeURIComponent] leaves as they are. *)
Definition uri_unreserved (c : N) : bool :=
  is_alnum c || bool_decide (c ∈ js "-_.!~*'()").

Definition hex_digit (n : N) : N :=
  (if n <? 10 then 48 + n else 55 + n)%N.

Definition percent (octet : N) : jsstring :=
  [37%N; hex_digit (octet / 16); hex_digit (octet mod 16)].

Definition utf8 (cp : N) : list N :=
  (if cp <? 128 then [cp]
   else if cp <? 2048 then [192 + cp / 64; 128 + cp mod 64]
   else if cp <? 65536 then
     [224 + cp / 4096; 128 + (cp / 64) mod 64; 128 + cp mod 64]
   else [240 + cp / 262144; 128 + (cp / 4096) mod 64;
         128 + (cp / 64) mod 64; 128 + cp mod 64])%N.

Definition is_lead (c : N) : bool := ((55296 <=? c) && (c <=? 56319))%N.
Definition is_trail (c : N) : bool := ((56320 <=? c) && (c <=? 57343))%N.

(** [None] is a [URIError]: the string has an unpaired surrogate. *)
Fixpoint uri_encode (s : jsstring) : option jsstring :=
  match s with
  | [] => Some []
  | c :: r =>
      if uri_unreserved c then (cons c) <$> uri_encode r
      else if is_trail c then None
      else if is_lead c then
        match r with
        | d :: r' =>
            if is_trail d then
              let cp := ((c - 55296) * 1024 + (d - 56320) + 65536)%N in
              (app (List.concat (percent <$> utf8 cp))) <$> uri_encode r'
            else None
        | [] => None
        end
      else (app (List.concat (percent <$> utf8 c))) <$> uri_encode r
  end.

Definition encodeURIComponent (s : jsstring) : M jsstring :=
  match uri_encode s with
  | Some e => mret e
  | None => throw "URIError"
  end.

(** The two text fields as [FormData.get] returns them: a string, or
    [None] for [null] when the form has no such field. *)
Record Form : Type := mkForm {
  form_certificateId : option jsstring;
  form_certificateKey : option jsstring
}.

(** [event.preventDefault()] has no effect on the state modelled here. *)
Definition handleFormSubmit (form : Form) : M () :=
  try_catch
    (let certificateId := trim <$> form_certificateId form in
     let certificateKey := trim <$> form_certificateKey form in
     if negb (truthy (field certificateId)) || negb (truthy (field certificateKey))
     then alert "Please enter both Certificate ID and Verification Key"
     else if negb (regex_test id_pattern (default [] certificateId))
     then alert "Certificate ID should be in format: PTSC2025-0123"
     else if negb (regex_test key_pattern (default [] certificateKey))
     then alert "Verification key should be 10 alphanumeric characters"
     else
       encodedId ← encodeURIComponent (default [] certificateId);
       encodedKey ← encodeURIComponent (default [] certificateKey);
       let url := js "certificate.html?id=" ++ encodedId ++
                  js "&key=" ++ encodedKey in
       modify (set_location_href (Some url)))
    (fun _ =>
       console_error "Error handling form submission:";;
       alert "An error occurred. Please try again.").

(* ================================================================== *)
(** ** Download *)
(* ================================================================== *)

(** [s.replace(/\s+/g, '_')]; [in_run] tells that the previous code unit
    was white space too. *)
Fixpoint underscore_runs (in_run : bool) (s : jsstring) : jsstring :=
  match s with
  | [] => []
  | c :: r =>
      if is_ws c then
        if in_run then underscore_runs true r
        else 95%N :: underscore_runs true r
      else c :: underscore_runs false r
  end.

(** A node that is none of the given ones, as [cloneNode] creates. *)
Definition fresh_node (nodes : list nat) : nat := S (foldr Nat.max O nodes).

Definition appendChild (node : nat) (w : World) : World :=
  set_body_children (filter (fun x => x ≠ node) (body_children w) ++ [node]) w.

(** [document.body.removeChild(node)] raises unless [node] is a child. *)
Definition removeChild (node : nat) : M () :=
  children ← gets body_children;
  if bool_decide (node ∈ children) then
    modify (set_body_children (filter (fun x => x ≠ node) children))
  else throw "NotFoundError".

(** [?.textContent || fallback] *)
Definition text_or (fallback : string) (t : option jsstring) : jsstring :=
  if truthy (field t) then default [] t else js fallback.

(** The styling of the clone, its watermark, and the geometry of the
    image on the PDF page live inside the clone and the generated file;
    the model keeps the calls that can raise, in the order of the source,
    and records a finished download with its file name. *)
Definition downloadCertificate (h : Host) (format : jsstring) : M () :=
  certificateContainer ← gets container;
  match certificateContainer with
  | None =>
      alert "Certificate not found. Please ensure the certificate is loaded."
  | Some _ =>
      recipientName ← gets (fun w =>
        text_or "Certificate" (textContent w !! "recipientName"));
      certificateId ← gets (fun w =>
        text_or "PTSC" (textContent w !! "certificateId"));
      let filenameBase := underscore_runs false recipientName ++ js "_" ++
                          certificateId ++ js "_PTSC_Certificate" in
      clone ← gets (fun w => fresh_node (body_children w));
      modify (appendChild clone);;
      try_finally
        (try_catch
           (modify (fun w => set_navigation (style_set "hidden" (navigation w)) w);;
            originalCursor ← gets cursor;
            modify (set_cursor "wait");;
            guard_raise (export_raises h Rasterize) "html2canvas rejected";;
            emit EvRasterize;;
            (if str_eq format (js "jpg") then
               guard_raise (export_raises h EncodeImage) "toDataURL failed";;
               emit (EvDownload (filenameBase ++ js ".jpg"))
             else if str_eq format (js "pdf") then
               guard_raise (export_raises h LoadPdfLibrary) "jsPDF unavailable";;
               guard_raise (export_raises h EncodeImage) "toDataURL failed";;
               guard_raise (export_raises h EmbedImage) "addImage failed";;
               guard_raise (export_raises h SavePdf) "save failed";;
               emit (EvDownload (filenameBase ++ js ".pdf"))
             else mret ());;
            modify (set_cursor originalCursor);;
            modify (fun w => set_navigation (style_set "visible" (navigation w)) w))
           (fun _ =>
              console_error "Download failed:";;
              alert "Download failed. Please try again or use the print option."))
        (try_catch (removeChild clone) (fun _ => mret ());;
         modify (fun w => set_navigation (style_set "visible" (navigation w)) w);;
         try_catch (modify enableClientProtection) (fun _ => mret ()))
  end.

(* ================================================================== *)
(** ** Vocabulary of the specification *)
(* ================================================================== *)

(** The three display states of the verification page. *)
Inductive DisplayState : Type := LOADING | ERROR | CERTIFICATE.

Definition region_is (v : string) (el : option string) : Prop :=
  match el with
  | Some d => d = v
  | None => True
  end.

Definition display_of (shown : bool) : string :=
  if shown then "block" else "none".

(** Every view region of the page has the visibility the state asks for. *)
Definition in_state (st : DisplayState) (w : World) : Prop :=
  region_is (display_of (if st is LOADING then true else false)) (loadingState w)
  /\ region_is (display_of (if st is ERROR then true else false)) (errorState w)
  /\ region_is (display_of (if st is CERTIFICATE then true else false))
       (certificateState w).

(** An identifier or key argument of the documented type: a string, or
    [null]/[undefined]. *)
Definition is_text (v : Value) : Prop :=
  match v with
  | VObject => False
  | _ => True
  end.

(** The string such an argument stands for. *)
Definition text_of (v : Value) : jsstring :=
  match v with
  | VString s => s
  | _ => []
  end.

Definition all_ws (s : jsstring) : Prop := Forall (fun c => is_ws c = true) s.

(** Both trimmed fields of the record equal the given strings. *)
Definition exact_match (nid nkey : jsstring) (cert : Certificate) : Prop :=
  trim (default [] (cert_id cert)) = nid
  /\ trim (default [] (cert_key cert)) = nkey.

#[global] Instance exact_match_dec (nid nkey : jsstring) (cert : Certificate) :
  Decision (exact_match nid nkey cert).
Proof. unfold exact_match. apply _. Defined.

(** Two records share their trimmed identifier and key. *)
Definition same_pair (a b : Certificate) : Prop :=
  exact_match (trim (default [] (cert_id b))) (trim (default [] (cert_key b))) a.

(** A field that is absent, empty, or white space only. *)
Definition blank (f : option jsstring) : Prop :=
  match f with
  | Some s => all_ws s
  | None => True
  end.

(** A parameter that is missing from the parsed parameters, or empty. *)
Definition missing (params : gmap jsstring jsstring) (name : jsstring) : Prop :=
  params !! name = None \/ params !! name = Some [].

(** The scale factor in the words of the specification: the smaller of
    the two fit ratios and 1, floored at 0.25.  The ratios are quotients
    of numbers of the script. *)
Definition spec_scale (availableWidth availableHeight : Q) : Q :=
  Qmax (Qmin (Qmin (Number_divide availableWidth 1123)
                   (Number_divide availableHeight 794)) 1) (1 # 4).

(** The same formula over the reals, with exact quotients. *)
Definition real_scale (availableWidth availableHeight : Q) : Q :=
  Qmax (Qmin (Qmin (availableWidth / 1123) (availableHeight / 794)) 1) (1 # 4).

(** The identifier pattern in the words of the specification: the prefix,
    four digits, a dash, four digits. *)
Definition is_certificate_identifier (s : jsstring) : Prop :=
  exists year number : jsstring,
    List.length year = 4%nat /\ List.length number = 4%nat
    /\ Forall (fun c => is_digit c = true) year
    /\ Forall (fun c => is_digit c = true) number
    /\ s = js "PTSC" ++ year ++ js "-" ++ number.

(** The key pattern in the words of the specification: ten alphanumeric
    characters. *)
Definition is_verification_key (s : jsstring) : Prop :=
  List.length s = 10%nat /\ Forall (fun c => is_alnum c = true) s.

(** The alert of a failed export. *)
Definition download_failed : string :=
  "Download failed. Please try again or use the print option.".

(** Some call on the path [downloadCertificate] takes for [format]
    raises. *)
Definition export_fails (h : Host) (format : jsstring) : bool :=
  export_raises h Rasterize
  || (if str_eq format (js "jpg") then export_raises h EncodeImage
      else if str_eq format (js "pdf") then
        export_raises h LoadPdfLibrary || export_raises h EncodeImage
        || export_raises h EmbedImage || export_raises h SavePdf
      else false).

Inductive ProtectionCall : Type := Enable | Disable.

Definition call (w : World) (c : ProtectionCall) : World :=
  match c with
  | Enable => enableClientProtection w
  | Disable => disableClientProtection w
  end.

(** The listeners recorded in [_protectionHandlers]. *)
Definition installed (w : World) : list Listener :=
  match _protectionHandlers w with
  | Some (onContext, onKey) =>
      [mkListener "contextmenu" onContext false; mkListener "keydown" onKey true]
  | None => []
  end.

(** Closure identities already in use are below the allocation counter. *)
Definition closures_allocated (w : World) : Prop :=
  Forall (fun l => (l_fn l < next_closure w)%nat) (listeners w).

(** The state of the registration: the document's listeners are the ones
    the page had ([base]) followed by the recorded pair, if any. *)
Definition registration (base : list Listener) (w : World) : Prop :=
  listeners w = base ++ installed w
  /\ closures_allocated w
  /\ Forall (fun l => l ∉ base) (installed w).

(** The form's trimmed fields are [id] and [key], and both have the
    required shape. *)
Definition gate_accepts (form : Form) (id key : jsstring) : Prop :=
  trim <$> form_certificateId form = Some id
  /\ trim <$> form_certificateKey form = Some key
  /\ is_certificate_identifier id /\ is_verification_key key.

(* ================================================================== *)
(** ** Sample data *)
(* ================================================================== *)

Definition jane : Certificate :=
  mkCertificate (Some (js "PTSC2025-0001")) (Some (js "AAAAAAAAAA"))
    (Some (js "Jane Doe")) (Some (js "Intro Workshop"))
    (Some (js "Participation")) (Some (js "2025-03-01"))
    (Some (js "Faculty Coordinator")).

(** A second record with the identifier and key of [jane]. *)
Definition jane_again : Certificate :=
  mkCertificate (Some (js " PTSC2025-0001")) (Some (js "AAAAAAAAAA "))
    (Some (js "Jane D.")) None None None None.

Definition john : Certificate :=
  mkCertificate (Some (js "PTSC2025-0002")) (Some (js "BBBBBBBBBB"))
    (Some (js "John Roe")) None None None None.

(** A malformed record: no identifier, a key of two spaces. *)
Definition malformed : Certificate :=
  mkCertificate None (Some (js "  ")) (Some (js "Nobody")) None None None None.

(** [certificate.html] before the script has run: every region and every
    text element is present. *)
Definition page : World :=
  mkWorld (Some "block") (Some "none") (Some "none") (Some None) (Some None)
    (list_to_map ((fun el => (el, [])) <$>
       ["certificateType"; "recipientName"; "eventName"; "completionDate";
        "issueDate"; "issuerName"; "certificateId"]))
    (js "Certificate") ∅ None [] 0 [1; 2; 3]%nat (Some "visible") "auto"
    None [] [] [].

Definition host (query : list (jsstring * jsstring))
  (certs : list Certificate) (render : RenderStep -> bool)
  (export : ExportStep -> bool) : Host :=
  mkHost query (FetchOk (mkData (Some certs))) 1400 900 (fun s => s)
    render export.

Definition no_fault {A : Type} (_ : A) : bool := false.

(** A page on which the recipient's name cannot be written. *)
Definition name_write_raises (step : RenderStep) : bool :=
  match step with
  | WriteName => true
  | _ => false
  end.

(** A host whose rasteriser rejects. *)
Definition rasterize_raises (step : ExportStep) : bool :=
  match step with
  | Rasterize => true
  | _ => false
  end.

(* ================================================================== *)
(** ** Page-wide error handlers *)
(* ================================================================== *)

(** [!el || el.style.display === 'none'] *)
Definition absent_or_hidden (el : option string) : bool :=
  match el with
  | Some d => bool_decide (d = "none")
  | None => true
  end.

(** The listener of the window's [error] event. *)
Definition onGlobalError : M () :=
  console_error "Global error:";;
  errorState ← gets errorState;
  certificateState ← gets certificateState;
  loadingState ← gets loadingState;
  if bool_decide (is_Some errorState) && absent_or_hidden certificateState
     && absent_or_hidden loadingState
  then modify showError
  else mret ().

(* ================================================================== *)
(** ** Debounced resize handling *)
(* ================================================================== *)

(** [debounce(func, wait)]: the closure variable [timeout], the host's
    pending timers (identity, due time, and the arguments captured by
    [later]), and the calls of [func] made so far. *)
Record Debounced (A : Type) : Type := mkDebounced {
  timeout : option nat;
  timers : list (nat * Z * A);
  next_timer : nat;
  invoked : list A
}.
Arguments mkDebounced {A} _ _ _ _.
Arguments timeout {A} _.
Arguments timers {A} _.
Arguments next_timer {A} _.
Arguments invoked {A} _.

(** [debounce(func, wait)] before its first call. *)
Definition debounce {A : Type} : Debounced A := mkDebounced None [] 0 [].

(** [clearTimeout(id)]: an unknown or spent identity is ignored. *)
Definition clearTimeout {A : Type} (id : option nat) (ts : list (nat * Z * A))
  : list (nat * Z * A) :=
  match id with
  | Some i => filter (fun t => t.1.1 ≠ i) ts
  | None => ts
  end.

(** [executedFunction(...args)] at time [now]. *)
Definition executedFunction {A : Type} (wait now : Z) (args : A)
  (s : Debounced A) : Debounced A :=
  let ts := clearTimeout (timeout s) (timers s) in
  let id := next_timer s in
  mkDebounced (Some id) (ts ++ [(id, now + wait, args)]) (S id) (invoked s).

(** [later()], run by the host for the timer [id]. *)
Definition later {A : Type} (id : nat) (args : A) (s : Debounced A)
  : Debounced A :=
  let ts := filter (fun t => t.1.1 ≠ id) (timers s) in
  mkDebounced (timeout s) (clearTimeout (timeout s) ts) (next_timer s)
    (invoked s ++ [args]).

(** The host runs the timers that are due at [now], oldest first; a timer
    cleared in the meantime does not run. *)
Definition run_due {A : Type} (now : Z) (s : Debounced A) : Debounced A :=
  foldl (fun s t =>
           if bool_decide (t.1.1 ∈ (fun u => u.1.1) <$> timers s)
           then later t.1.1 t.2 s else s)
    s (filter (fun t => t.1.2 <= now) (timers s)).

(** What happens to the page: a resize event at some time carrying
    arguments for the debounced function, or time passing. *)
Inductive Tick (A : Type) : Type :=
| Resize (now : Z) (args : A)
| Idle (now : Z).
Arguments Resize {A} now args.
Arguments Idle {A} now.

Definition tick {A : Type} (wait : Z) (s : Debounced A) (t : Tick A)
  : Debounced A :=
  match t with
  | Resize now args => executedFunction wait now args (run_due now s)
  | Idle now => run_due now s
  end.

(** Resize events that follow one another within less than [wait]. *)
Fixpoint burst {A : Type} (wait : Z) (first : Z) (rest : list (Z * A)) : Prop :=
  match rest with
  | [] => True
  | (t, _) :: rest' => first <= t < first + wait /\ burst wait t rest'
  end.

(* ================================================================== *)
(** ** Sharing helpers *)
(* ================================================================== *)

(** What [copyCurrentUrl] finds in the browser: whether
    [navigator.clipboard] exists, [window.isSecureContext], whether
    [writeText] succeeds, and what [document.execCommand('copy')] returns
    ([None] when it raises). *)
Record ClipboardHost : Type := mkClipboardHost {
  has_clipboard : bool;
  isSecureContext : bool;
  writeText_succeeds : bool;
  execCommand_copy : option bool
}.

(** The state of the promise a function returns. *)
Inductive Promise : Type := Fulfilled | Rejected.

Definition copyCurrentUrl (c : ClipboardHost) : M Promise :=
  if has_clipboard c && isSecureContext c then
    mret (if writeText_succeeds c then Fulfilled else Rejected)
  else
    textArea ← gets (fun w => fresh_node (body_children w));
    modify (appendChild textArea);;
    try_catch
      (successful ← match execCommand_copy c with
                    | Some b => mret b
                    | None => throw "execCommand failed"
                    end;
       removeChild textArea;;
       mret (if successful : bool then Fulfilled else Rejected))
      (fun _ =>
         removeChild textArea;;
         mret Rejected).

(* ================================================================== *)
(** ** Vocabulary for the remaining properties *)
(* ================================================================== *)

#[global] Instance is_text_dec (v : Value) : Decision (is_text v).
Proof. destruct v; simpl; apply _. Defined.

(** What [validateCertificate] resolves to, read as a function of the
    host: the first exact match of a loaded collection, and nothing when
    the collection did not load, has no [certificates] array, or an
    argument is an object without a [trim] method. *)
Definition lookup_certificate (h : Host) (id key : Value) : option Certificate :=
  match fetched h with
  | FetchOk (mkData (Some certs)) =>
      if bool_decide (is_text id /\ is_text key) then
        snd <$> list_find
                  (exact_match (trim (text_of id)) (trim (text_of key))) certs
      else None
  | _ => None
  end.

(** Which of the three view regions the page has. *)
Definition regions_present (w : World) : bool * bool * bool :=
  (bool_decide (is_Some (loadingState w)),
   bool_decide (is_Some (errorState w)),
   bool_decide (is_Some (certificateState w))).

(** A computation that completes normally on every world. *)
Definition never_raises {A : Type} (m : M A) : Prop :=
  forall w, exists a, result m w = Normal a.

(** The characters [innerHTML] escapes in a text node. *)
Definition html_special (c : N) : bool :=
  bool_decide (c ∈ [38; 60; 62; 160]%N).

(** No render step raises. *)
Definition renders_cleanly (h : Host) : Prop :=
  forall step, render_raises h step = false.

(** A computation that leaves the observation [f] of the world alone. *)
Definition keeps {A B : Type} (f : World -> B) (m : M A) : Prop :=
  forall w, f (exec m w) = f w.

(** The elements [updateCertificateDisplay] fills, with the record field
    each shows and how it is rendered. *)
Definition display_fields (h : Host) (c : Certificate)
  : list (string * option jsstring * (jsstring -> jsstring)) :=
  [("certificateType", cert_type c, sanitizeText);
   ("recipientName", cert_name c, sanitizeText);
   ("eventName", cert_event c, sanitizeText);
   ("completionDate", cert_date c, formatDate h);
   ("issueDate", cert_date c, formatDate h);
   ("issuerName", cert_issuer c, sanitizeText);
   ("certificateId", cert_id c, sanitizeText)].

(** The text of an element after a field has been written to it: the
    rendered field when the record has one, the old text otherwise. *)
Definition shown_text (value : option jsstring) (render : jsstring -> jsstring)
  (old : jsstring) : jsstring :=
  if truthy (field value) then render (default [] value) else old.

(** The world after [if (el && value) el.textContent = render(value)]. *)
Definition written (el : string) (value : option jsstring)
  (render : jsstring -> jsstring) (w : World) : World :=
  if bool_decide (is_Some (textContent w !! el)) && truthy (field value)
  then set_textContent (<[el := render (default [] value)]> (textContent w)) w
  else w.

(** One timer is pending, and it is the one [timeout] names. *)
Definition armed {A : Type} (due : Z) (args : A) (s : Debounced A) : Prop :=
  exists id : nat, timeout s = Some id /\ timers s = [(id, due, args)].

Definition is_resize {A : Type} (t : Tick A) : bool :=
  match t with
  | Resize _ _ => true
  | Idle _ => false
  end.

(** The base of the file name of an export, read off the page. *)
Definition filename_base (w : World) : jsstring :=
  underscore_runs false (text_or "Certificate" (textContent w !! "recipientName"))
  ++ js "_" ++ text_or "PTSC" (textContent w !! "certificateId")
  ++ js "_PTSC_Certificate".

(** What a successful export of [format] records after rasterising. *)
Definition export_download (format : jsstring) (w : World) : list Event :=
  if str_eq format (js "jpg") then [EvDownload (filename_base w ++ js ".jpg")]
  else if str_eq format (js "pdf") then
    [EvDownload (filename_base w ++ js ".pdf")]
  else [].

(* ================================================================== *)
(** * Properties *)
(* ================================================================== *)

(** ** Trimming *)

Lemma trim_start_all_ws (s : jsstring) : all_ws s -> trim_start s = [].
Proof.
  induction 1 as [|c r Hc _ IH]; simpl; [done|]. by rewrite Hc.
Qed.

Lemma trim_start_ws_app (a s : jsstring) :
  all_ws a -> trim_start (a ++ s) = trim_start s.
Proof.
  induction 1 as [|c r Hc _ IH]; simpl; [done|]. by rewrite Hc.
Qed.

Lemma trim_start_nil_all_ws (s : jsstring) : trim_start s = [] -> all_ws s.
Proof.
  induction s as [|c r IH]; simpl; [constructor|].
  destruct (is_ws c) eqn:Hc; [|done].
  intros Hr. constructor; [done|by apply IH].
Qed.

(** What [trim_start] keeps starts with a character that is not white
    space, and appending to it does not change where it starts. *)
Lemma trim_start_app_keep (s t : jsstring) :
  trim_start s <> [] -> trim_start (s ++ t) = trim_start s ++ t.
Proof.
  induction s as [|c r IH]; simpl; [done|].
  destruct (is_ws c); [exact IH|done].
Qed.

Lemma trim_start_head (s : jsstring) (c : N) (r : jsstring) :
  trim_start s = c :: r -> is_ws c = false.
Proof.
  induction s as [|x s IH]; simpl; [done|].
  destruct (is_ws x) eqn:Hx; [exact IH|].
  intros [= <- _]. exact Hx.
Qed.

Lemma all_ws_rev (s : jsstring) : all_ws s -> all_ws (rev s).
Proof. apply List.Forall_rev. Qed.

Lemma trim_end_app_ws (s b : jsstring) :
  all_ws b -> trim_end (s ++ b) = trim_end s.
Proof.
  intros Hb. unfold trim_end. rewrite rev_app_distr.
  by rewrite trim_start_ws_app by by apply all_ws_rev.
Qed.

Lemma trim_end_all_ws (s : jsstring) : all_ws s -> trim_end s = [].
Proof.
  intros Hs. unfold trim_end. by rewrite trim_start_all_ws by by apply all_ws_rev.
Qed.

(** White space around a string does not survive [trim]. *)
Lemma trim_surrounding_ws (a s b : jsstring) :
  all_ws a -> all_ws b -> trim (a ++ s ++ b) = trim s.
Proof.
  intros Ha Hb. unfold trim. rewrite trim_start_ws_app by done.
  destruct (trim_start s) as [|c r] eqn:Hs.
  - rewrite trim_start_all_ws; [done|].
    apply Forall_app. split; [by apply trim_start_nil_all_ws|done].
  - rewrite trim_start_app_keep by by rewrite Hs.
    rewrite Hs. by apply trim_end_app_ws.
Qed.

Lemma trim_nil_iff (s : jsstring) : trim s = [] <-> all_ws s.
Proof.
  unfold trim. split.
  - intros He. apply trim_start_nil_all_ws.
    destruct (trim_start s) as [|c r] eqn:Hs; [done|].
    apply trim_start_head in Hs.
    unfold trim_end in He.
    assert (trim_start (rev (c :: r)) = []) as He'.
    { destruct (trim_start (rev (c :: r))) as [|x t]; [done|].
      simpl in He. by apply app_eq_nil in He as [_ ?]. }
    apply trim_start_nil_all_ws, all_ws_rev in He'.
    rewrite rev_involutive in He'.
    apply Forall_inv in He'. congruence.
  - intros Hs. by rewrite trim_start_all_ws.
Qed.

(** ** The matcher *)

Lemma or_empty_field (f : option jsstring) :
  or_empty (field f) = VString (default [] f).
Proof.
  destruct f as [s|]; [|done]. unfold or_empty. simpl.
  unfold str_eq. case_bool_decide; simpl; congruence.
Qed.

Lemma or_empty_text (v : Value) : is_text v -> or_empty v = VString (text_of v).
Proof.
  destruct v as [| |s|]; try done. intros _. unfold or_empty. simpl.
  unfold str_eq. case_bool_decide; simpl; congruence.
Qed.

(** The callback of [find] never raises on records of the data model,
    and decides [exact_match]. *)
Lemma matches_decides (nid nkey : jsstring) (cert : Certificate) (w : World) :
  matches nid nkey cert w = (Normal (bool_decide (exact_match nid nkey cert)), w).
Proof.
  unfold matches. rewrite !or_empty_field. simpl.
  unfold mbind, M_bind, mret, M_ret. simpl. do 2 f_equal.
  unfold str_eq, exact_match.
  repeat case_bool_decide; simpl; try done; tauto.
Qed.

Lemma array_find_decides {A : Type} (P : A -> Prop) `{!forall x, Decision (P x)}
  (callback : A -> M bool) (l : list A) (w : World) :
  (forall x w, callback x w = (Normal (bool_decide (P x)), w)) ->
  array_find callback l w = (Normal (snd <$> list_find P l), w).
Proof.
  intros Hcb. induction l as [|x l IH]; simpl; [done|].
  unfold mbind, M_bind at 1. rewrite Hcb.
  case_bool_decide; case_decide; try done.
  rewrite IH. destruct (list_find P l) as [[i y]|]; done.
Qed.

(** What [validateCertificate] does once the collection has loaded. *)
Lemma validateCertificate_run (h : Host) (w : World) (certs : list Certificate)
  (id key : Value) :
  fetched h = FetchOk (mkData (Some certs)) ->
  is_text id -> is_text key ->
  validateCertificate h id key w =
    (Normal (snd <$> list_find
               (exact_match (trim (text_of id)) (trim (text_of key))) certs),
     set_trace (trace w ++ [EvFetch "certificates.json"]) w).
Proof.
  intros Hf Hid Hkey.
  unfold validateCertificate, try_catch, fetchCertificates, try_catch, emit,
    modify.
  unfold mbind, M_bind. rewrite Hf. simpl.
  rewrite (or_empty_text id Hid), (or_empty_text key Hkey). simpl.
  rewrite (array_find_decides
             (exact_match (trim (text_of id)) (trim (text_of key)))).
  - done.
  - intros x w'. apply matches_decides.
Qed.

(** [list_find] read as "the first element that satisfies [P]". *)
Lemma list_find_first {A : Type} (P : A -> Prop) `{!forall x, Decision (P x)}
  (l : list A) (x : A) :
  snd <$> list_find P l = Some x ->
  exists i : nat, l !! i = Some x /\ P x
    /\ forall (j : nat) (y : A), (j < i)%nat -> l !! j = Some y -> ~ P y.
Proof.
  destruct (list_find P l) as [[i y]|] eqn:Hfind; [|done].
  intros [= ->]. apply list_find_Some in Hfind as (Hi & HP & Hlt).
  exists i. split; [done|]. split; [done|].
  intros j z Hj Hz. by apply (Hlt j z).
Qed.

Lemma list_find_none {A : Type} (P : A -> Prop) `{!forall x, Decision (P x)}
  (l : list A) :
  snd <$> list_find P l = None <-> forall x, x ∈ l -> ~ P x.
Proof.
  destruct (list_find P l) as [[i y]|] eqn:Hfind; simpl.
  - split; [done|]. intros Hall.
    apply list_find_Some in Hfind as (Hi & HP & _).
    exfalso. apply (Hall y); [|done]. by apply list_elem_of_lookup_2 in Hi.
  - split; [|done]. intros _.
    apply list_find_None in Hfind. by apply Forall_forall.
Qed.

(** C1: on every record collection and every pair of inputs (strings, or
    [null]/[undefined] standing for the empty string), [validateCertificate]
    returns the first record whose trimmed id and trimmed key both equal
    the trimmed inputs as strings, and returns none exactly when no record
    does; white space around either input does not change the result. *)
Theorem validateCertificate_first_exact_match
  (h : Host) (w : World) (certs : list Certificate) (id key : Value) :
  fetched h = FetchOk (mkData (Some certs)) ->
  is_text id -> is_text key ->
  exists r : option Certificate,
    result (validateCertificate h id key) w = Normal r
    /\ (forall c, r = Some c ->
          exists i : nat,
            certs !! i = Some c
            /\ exact_match (trim (text_of id)) (trim (text_of key)) c
            /\ forall (j : nat) (c' : Certificate),
                 (j < i)%nat -> certs !! j = Some c' ->
                 ~ exact_match (trim (text_of id)) (trim (text_of key)) c')
    /\ (r = None <->
          forall c, c ∈ certs ->
            ~ exact_match (trim (text_of id)) (trim (text_of key)) c)
    /\ (forall a b a' b' : jsstring,
          all_ws a -> all_ws b -> all_ws a' -> all_ws b' ->
          result (validateCertificate h
                    (VString (a ++ text_of id ++ b))
                    (VString (a' ++ text_of key ++ b'))) w = Normal r).
Proof.
  intros Hf Hid Hkey. eexists. unfold result.
  rewrite (validateCertificate_run h w certs id key Hf Hid Hkey). simpl.
  split; [reflexivity|]. split; [|split].
  - intros c Hc. by apply list_find_first in Hc.
  - apply list_find_none.
  - intros a b a' b' Ha Hb Ha' Hb'.
    rewrite (validateCertificate_run h w certs
               (VString (a ++ text_of id ++ b))
               (VString (a' ++ text_of key ++ b')) Hf I I). simpl.
    by rewrite !trim_surrounding_ws.
Qed.

Lemma validateCertificate_first_exact_match_witness :
  fetched (host [] [john; jane] no_fault no_fault)
    = FetchOk (mkData (Some [john; jane]))
  /\ is_text (VString (js "PTSC2025-0001 ")) /\ is_text VNull
  /\ exists r : option Certificate,
       result (validateCertificate (host [] [john; jane] no_fault no_fault)
                 (VString (js "PTSC2025-0001 ")) VNull) page = Normal r.
Proof.
  split; [reflexivity|]. split; [exact I|]. split; [exact I|].
  destruct (validateCertificate_first_exact_match
              (host [] [john; jane] no_fault no_fault) page [john; jane]
              (VString (js "PTSC2025-0001 ")) VNull eq_refl I I)
    as (r & Hr & _).
  exists r. exact Hr.
Defined.

(** C4: when two records of the collection share their trimmed identifier
    and key, a query for that pair returns the one at the smaller index,
    the first in array order that carries the pair. *)
Theorem validateCertificate_duplicates_first
  (h : Host) (w : World) (certs : list Certificate) (i j : nat)
  (ci cj : Certificate) (id key : Value) :
  fetched h = FetchOk (mkData (Some certs)) ->
  certs !! i = Some ci -> certs !! j = Some cj -> (i < j)%nat ->
  same_pair ci cj ->
  (forall (k : nat) (ck : Certificate),
     (k < i)%nat -> certs !! k = Some ck -> ~ same_pair ck cj) ->
  is_text id -> is_text key ->
  trim (text_of id) = trim (default [] (cert_id cj)) ->
  trim (text_of key) = trim (default [] (cert_key cj)) ->
  result (validateCertificate h id key) w = Normal (certs !! i).
Proof.
  intros Hf Hi Hj Hij Hsame Hfirst Hid Hkey Eid Ekey. unfold result.
  rewrite (validateCertificate_run h w certs id key Hf Hid Hkey). simpl.
  rewrite Eid, Ekey, Hi. f_equal.
  destruct (list_find _ certs) as [[n c]|] eqn:Hfind.
  - apply list_find_Some in Hfind as (Hn & Hc & Hlt). simpl.
    destruct (Nat.lt_trichotomy n i) as [Hlt'|[->|Hgt]].
    + exfalso. by apply (Hfirst n c).
    + congruence.
    + exfalso. by apply (Hlt i ci).
  - apply list_find_None in Hfind. exfalso.
    rewrite Forall_forall in Hfind. apply (Hfind ci); [|done].
    by apply list_elem_of_lookup_2 in Hi.
Qed.

Lemma validateCertificate_duplicates_first_witness :
  result (validateCertificate
            (host [] [john; jane; jane_again] no_fault no_fault)
            (VString (js "PTSC2025-0001")) (VString (js "AAAAAAAAAA")))
    page = Normal (Some jane).
Proof.
  apply (validateCertificate_duplicates_first
           (host [] [john; jane; jane_again] no_fault no_fault) page
           [john; jane; jane_again] 1 2 jane jane_again).
  - reflexivity.
  - reflexivity.
  - reflexivity.
  - lia.
  - split; reflexivity.
  - intros k ck Hk Hck [Hid _].
    assert (k = 0%nat) as -> by lia.
    injection Hck as <-. vm_compute in Hid. discriminate Hid.
  - exact I.
  - exact I.
  - reflexivity.
  - reflexivity.
Defined.

Lemma exact_match_nil_blank (cert : Certificate) :
  exact_match [] [] cert <-> blank (cert_id cert) /\ blank (cert_key cert).
Proof.
  unfold exact_match, blank. rewrite !trim_nil_iff.
  destruct (cert_id cert), (cert_key cert); simpl; unfold all_ws;
    rewrite ?Forall_nil; tauto.
Qed.

(** C10: when both inputs trim to the empty string ([null] and
    [undefined] included), [validateCertificate] returns the first record
    whose id field and key field are each absent, empty or white space
    only, and none only when the collection has no such record. *)
Theorem validateCertificate_blank_credentials
  (h : Host) (w : World) (certs : list Certificate) (id key : Value) :
  fetched h = FetchOk (mkData (Some certs)) ->
  is_text id -> is_text key ->
  trim (text_of id) = [] -> trim (text_of key) = [] ->
  exists r : option Certificate,
    result (validateCertificate h id key) w = Normal r
    /\ (forall c, r = Some c ->
          exists i : nat,
            certs !! i = Some c
            /\ blank (cert_id c) /\ blank (cert_key c)
            /\ forall (j : nat) (c' : Certificate),
                 (j < i)%nat -> certs !! j = Some c' ->
                 ~ (blank (cert_id c') /\ blank (cert_key c')))
    /\ (r = None <->
          forall c, c ∈ certs -> ~ (blank (cert_id c) /\ blank (cert_key c))).
Proof.
  intros Hf Hid Hkey Eid Ekey. eexists. unfold result.
  rewrite (validateCertificate_run h w certs id key Hf Hid Hkey). simpl.
  rewrite Eid, Ekey. split; [reflexivity|]. split.
  - intros c Hc. apply list_find_first in Hc as (i & Hi & Hm & Hlt).
    exists i. split; [done|]. apply exact_match_nil_blank in Hm as [? ?].
    do 2 (split; [done|]). intros j c' Hj Hc' Hb.
    apply (Hlt j c' Hj Hc'). by apply exact_match_nil_blank.
  - rewrite list_find_none. split; intros Hall c Hc Hb; apply (Hall c Hc);
      by apply exact_match_nil_blank.
Qed.

Lemma validateCertificate_blank_credentials_witness :
  exists r : option Certificate,
    result (validateCertificate (host [] [john; malformed] no_fault no_fault)
              VNull (VString (js " "))) page = Normal r
    /\ (r = None <->
          forall c, c ∈ [john; malformed] ->
            ~ (blank (cert_id c) /\ blank (cert_key c))).
Proof.
  destruct (validateCertificate_blank_credentials
              (host [] [john; malformed] no_fault no_fault) page
              [john; malformed] VNull (VString (js " "))
              eq_refl I I eq_refl eq_refl) as (r & Hr & _ & Hnone).
  exists r. split; [exact Hr|exact Hnone].
Defined.

(** Empty credentials do reach a malformed record. *)
Example blank_credentials_reach_malformed :
  result (validateCertificate (host [] [john; malformed] no_fault no_fault)
            VNull VUndefined) page = Normal (Some malformed).
Proof. vm_compute. reflexivity. Qed.

(** ** Parameter reader *)

(** C3: [parseURLParams] does not keep the first occurrence of a name
    whose first value is the empty string: for the query [?id=&id=PTSC2025-0001]
    the later value is bound to [id].  A name that [Object.prototype]
    defines, such as [toString], is never bound at all. *)
Theorem parseURLParams_empty_first_occurrence_overwritten :
  get (parseURLParams
         (host [(js "id", js ""); (js "id", js "PTSC2025-0001")] []
            no_fault no_fault)) (js "id")
    = VString (js "PTSC2025-0001")
  /\ parseURLParams
       (host [(js "toString", js "a")] [] no_fault no_fault) !! js "toString"
     = None.
Proof. split; vm_compute; reflexivity. Qed.

(** Once a name is bound to a non-empty value, later occurrences are
    ignored. *)
Lemma parseURLParams_step_keeps (result : gmap jsstring jsstring)
  (name v : jsstring) (entry : jsstring * jsstring) :
  result !! name = Some v -> v <> [] ->
  parseURLParams_step result entry !! name = Some v.
Proof.
  intros Hn Hv. destruct entry as [key value]. unfold parseURLParams_step.
  destruct (truthy (get result key)) eqn:Ht; simpl; [done|].
  destruct (decide (key = name)) as [->|Hne].
  - unfold get in Ht. rewrite Hn in Ht. simpl in Ht.
    unfold str_eq in Ht. case_bool_decide; done.
  - by rewrite lookup_insert_ne.
Qed.

Lemma parseURLParams_keeps (entries : list (jsstring * jsstring))
  (result : gmap jsstring jsstring) (name v : jsstring) :
  result !! name = Some v -> v <> [] ->
  foldl parseURLParams_step result entries !! name = Some v.
Proof.
  revert result. induction entries as [|e entries IH]; intros result Hn Hv;
    simpl; [done|].
  apply IH; [|done]. by apply parseURLParams_step_keeps.
Qed.

(** ** Display controller *)

Lemma missing_not_truthy (params : gmap jsstring jsstring) (name : jsstring) :
  missing params name -> name ∉ object_prototype ->
  truthy (get params name) = false.
Proof.
  intros [Hm|Hm] Hp; unfold get; rewrite Hm; [|done].
  by rewrite bool_decide_eq_false_2.
Qed.

Lemma id_key_not_inherited :
  (js "id" ∉ object_prototype) /\ (js "key" ∉ object_prototype).
Proof.
  split; apply (bool_decide_eq_false _); vm_compute; reflexivity.
Qed.

Lemma showError_in_state (w : World) : in_state ERROR (showError w).
Proof.
  unfold in_state, showError. simpl.
  destruct (loadingState w), (errorState w), (certificateState w); done.
Qed.

(** C5: when [id] or [key] is missing from the parsed parameters, or is
    empty, [verifyCertificate] ends in the ERROR display state (the error
    region, when the page has one, is displayed and the other two are
    hidden) and performs neither the fetch of the record collection nor
    any other traced action: the check comes before the fetch. *)
Theorem verifyCertificate_missing_parameter_no_fetch (h : Host) (w : World) :
  missing (parseURLParams h) (js "id") \/ missing (parseURLParams h) (js "key") ->
  result (verifyCertificate h) w = Normal ()
  /\ in_state ERROR (exec (verifyCertificate h) w)
  /\ errorState (exec (verifyCertificate h) w)
     = style_set "block" (errorState w)
  /\ trace (exec (verifyCertificate h) w) = trace w
  /\ EvFetch "certificates.json" ∉ drop (List.length (trace w))
       (trace (exec (verifyCertificate h) w)).
Proof.
  intros Hm.
  assert (negb (truthy (get (parseURLParams h) (js "id")))
          || negb (truthy (get (parseURLParams h) (js "key"))) = true) as Hc.
  { destruct Hm as [Hm|Hm].
    - rewrite (missing_not_truthy _ _ Hm); [done|].
      apply id_key_not_inherited.
    - rewrite (missing_not_truthy _ (js "key") Hm);
        [|apply id_key_not_inherited].
      by rewrite orb_true_r. }
  unfold result, exec, verifyCertificate. cbv zeta. rewrite Hc.
  unfold mbind, M_bind, try_catch, modify, console_error, modify. simpl.
  split; [done|]. split; [|split; [|split]].
  - apply (showError_in_state (set_console _ (showLoading w))).
  - by destruct (errorState w).
  - done.
  - rewrite drop_all. apply not_elem_of_nil.
Qed.

Lemma verifyCertificate_missing_parameter_no_fetch_witness :
  result (verifyCertificate
            (host [(js "id", js "PTSC2025-0001")] [jane] no_fault no_fault))
    page = Normal ()
  /\ trace (exec (verifyCertificate
                    (host [(js "id", js "PTSC2025-0001")] [jane]
                       no_fault no_fault)) page) = trace page.
Proof.
  destruct (verifyCertificate_missing_parameter_no_fetch
              (host [(js "id", js "PTSC2025-0001")] [jane] no_fault no_fault)
              page (or_intror (or_introl eq_refl))) as (Hr & _ & _ & Ht & _).
  split; [exact Hr|exact Ht].
Defined.

(** C2: a failure while the fields of a matched certificate are being
    populated is caught inside [updateCertificateDisplay], which shows the
    error region; [verifyCertificate] then goes on to [showCertificate],
    so the run ends in the CERTIFICATE display state and not in ERROR. *)
Theorem verifyCertificate_render_failure_ends_in_certificate :
  let h := host [(js "id", js "PTSC2025-0001"); (js "key", js "AAAAAAAAAA")]
             [jane] name_write_raises no_fault in
  let w := exec (verifyCertificate h) page in
  console w = ["Error updating certificate display:"]
  /\ errorState (exec (updateCertificateDisplay h jane) page) = Some "block"
  /\ in_state CERTIFICATE w
  /\ ~ in_state ERROR w.
Proof.
  split; [vm_compute; reflexivity|].
  split; [vm_compute; reflexivity|].
  split.
  - repeat split; vm_compute; reflexivity.
  - intros (_ & He & _). vm_compute in He. discriminate He.
Qed.

(** ** Rounding to the nearest double *)

(** The nearest integer is at least [k] exactly when the argument lies
    above [k - 1/2], or on it with [k] even. *)
Lemma rne_ge (x : Q) (k : Z) :
  k <= rne x <->
  (2 * k - 1) * Zpos (Qden x) < 2 * Qnum x
  \/ ((2 * k - 1) * Zpos (Qden x) = 2 * Qnum x /\ Z.even k = true).
Proof.
  destruct x as [n d]. unfold rne. cbn [Qnum Qden].
  pose proof (Z.div_mod n (Zpos d) ltac:(lia)) as Hdm.
  pose proof (Z.mod_pos_bound n (Zpos d) ltac:(lia)) as Hr.
  set (q := n / Zpos d) in *. set (r := n mod Zpos d) in *.
  assert (Hd : 0 < Zpos d) by lia. revert Hd Hdm Hr.
  generalize (Zpos d). intros D HD Hdm Hr.
  destruct (Z.compare_spec (2 * r) D) as [He|Hl|Hg].
  - assert (forall k, (2 * k - 1) * D < 2 * n <-> k <= q) as Hlt.
    { intros j. split; intros; nia. }
    assert (forall k, (2 * k - 1) * D = 2 * n <-> k = q + 1) as Heq.
    { intros j. split; intros; nia. }
    rewrite Hlt, Heq.
    destruct (Z.even q) eqn:Hev.
    + split; [tauto|]. intros [?|[-> Hk]]; [done|].
      rewrite Z.even_add, Hev in Hk. discriminate Hk.
    + split.
      * intros Hk. destruct (decide (k <= q)); [by left|right].
        assert (k = q + 1) as -> by lia. split; [done|].
        by rewrite Z.even_add, Hev.
      * intros [?|[-> _]]; lia.
  - split.
    + intros Hk. left. nia.
    + intros [H|[H _]]; nia.
  - split.
    + intros Hk. left. nia.
    + intros [H|[H _]]; nia.
Qed.

Lemma rne_mono (x y : Q) : (x <= y)%Q -> rne x <= rne y.
Proof.
  intros Hxy. apply rne_ge.
  destruct (proj1 (rne_ge x (rne x)) (Z.le_refl _)) as [H|[H Hev]];
    unfold Qle in Hxy.
  - left. pose proof (Pos2Z.is_pos (Qden x)). pose proof (Pos2Z.is_pos (Qden y)). nia.
  - pose proof (Pos2Z.is_pos (Qden x)). pose proof (Pos2Z.is_pos (Qden y)).
    destruct (decide ((2 * rne x - 1) * Zpos (Qden y) = 2 * Qnum y)); [by right|left]. nia.
Qed.

Lemma rne_proper (x y : Q) : (x == y)%Q -> rne x = rne y.
Proof.
  intros H. apply Z.le_antisymm; apply rne_mono; rewrite H; apply Qle_refl.
Qed.

Lemma rne_inject_Z (k : Z) : rne (inject_Z k) = k.
Proof.
  unfold rne. cbn [Qnum Qden inject_Z]. rewrite Z.mod_1_r, Z.div_1_r. reflexivity.
Qed.

Lemma rne_near (x : Q) :
  (inject_Z (rne x) - (1 # 2) <= x /\ x <= inject_Z (rne x) + (1 # 2))%Q.
Proof.
  pose proof (Pos2Z.is_pos (Qden x)) as Hd.
  split.
  - destruct (proj1 (rne_ge x (rne x)) (Z.le_refl _)) as [H|[H _]];
      destruct x as [n d]; unfold Qle, Qminus, Qplus, Qopp, inject_Z; cbn in *; nia.
  - assert (~ rne x + 1 <= rne x) as Hn by lia.
    rewrite rne_ge in Hn.
    destruct x as [n d]; unfold Qle, Qminus, Qplus, Qopp, inject_Z; cbn in *.
    destruct (Z.lt_ge_cases (2 * rne (n # d) * Z.pos d + Z.pos d) (2 * n)); [|nia].
    exfalso. apply Hn. left. nia.
Qed.

Lemma two_pow_pos (e : Z) : (0 < 2 ^ e)%Q.
Proof. by apply Qpower_0_lt. Qed.

Lemma two_pow_succ (e : Z) : (2 ^ (e + 1) == 2 * 2 ^ e)%Q.
Proof. rewrite Qpower_plus by done. rewrite Qpower_1_r. ring. Qed.

Lemma two_pow_cancel (e : Z) : (2 ^ (- e) * 2 ^ e == 1)%Q.
Proof.
  rewrite <- Qpower_plus by done. by replace (- e + e) with 0 by lia.
Qed.

Lemma log2_bracket (n : Z) :
  0 < n -> (2 ^ Z.log2 n <= inject_Z n /\ inject_Z n < 2 * 2 ^ Z.log2 n)%Q.
Proof.
  intros Hn. destruct (Z.log2_spec n Hn) as [Hlo Hhi].
  pose proof (Z.log2_nonneg n) as Hl.
  rewrite <- two_pow_succ.
  change 2%Q with (inject_Z 2).
  rewrite <- !Zpower_Qpower by lia.
  split; [by rewrite <- Zle_Qle|by rewrite <- Zlt_Qlt].
Qed.

Lemma binade_spec (x : Q) :
  (0 < x)%Q -> (2 ^ 52 <= x * 2 ^ (- binade x) /\ x * 2 ^ (- binade x) < 2 ^ 53)%Q.
Proof.
  intros Hx. unfold binade.
  set (e := Z.log2 (Qnum x) - Z.log2 (Zpos (Qden x)) - 52).
  assert (2 ^ 51 < x * 2 ^ (- e) /\ x * 2 ^ (- e) < 2 ^ 53)%Q as [Hlo Hhi].
  { assert (0 < Qnum x) as Hn.
    { unfold Qlt in Hx. simpl in Hx. lia. }
    destruct (log2_bracket (Qnum x) Hn) as [Hn1 Hn2].
    destruct (log2_bracket (Zpos (Qden x)) ltac:(lia)) as [Hd1 Hd2].
    pose proof (two_pow_pos (Z.log2 (Qnum x))) as HA.
    pose proof (two_pow_pos (Z.log2 (Zpos (Qden x)))) as HB.
    pose proof (two_pow_pos (- e)) as HE.
    assert (2 ^ (- e) * 2 ^ Z.log2 (Qnum x)
            == 2 ^ 52 * 2 ^ Z.log2 (Zpos (Qden x)))%Q as Hrel.
    { rewrite <- !Qpower_plus by done. apply Qpower_comp; [done|]. unfold e. lia. }
    assert (x * inject_Z (Zpos (Qden x)) == inject_Z (Qnum x))%Q as Hxd.
    { destruct x as [n d]. unfold Qeq, Qmult, inject_Z. simpl. lia. }
    revert Hn1 Hn2 Hd1 Hd2 HA HB HE Hrel Hxd.
    generalize (2 ^ Z.log2 (Qnum x))%Q (2 ^ Z.log2 (Zpos (Qden x)))%Q
      (2 ^ (- e))%Q (inject_Z (Qnum x)) (inject_Z (Zpos (Qden x))).
    intros A B E N D Hn1 Hn2 Hd1 Hd2 HA HB HE Hrel Hxd.
    change (2 ^ 51)%Q with 2251799813685248%Q.
    change (2 ^ 53)%Q with 9007199254740992%Q.
    change (2 ^ 52)%Q with 4503599627370496%Q in Hrel.
    assert (0 < D)%Q as HD by lra.
    assert (x * E * (D * A) == 4503599627370496 * (N * B))%Q as Hs.
    { transitivity ((x * D) * (E * A))%Q; [ring|]. rewrite Hxd, Hrel. ring. }
    assert (0 < D * A)%Q as HDA by nra.
    split.
    - apply (Qmult_lt_r _ _ (D * A) HDA). rewrite Hs. nra.
    - apply (Qmult_lt_r _ _ (D * A) HDA). rewrite Hs. nra. }
  destruct (Qle_bool (2 ^ 52) (x * 2 ^ (- e))) eqn:Hb.
  - apply Qle_bool_iff in Hb. done.
  - assert (x * 2 ^ (- e) < 2 ^ 52)%Q as Hlt.
    { apply Qnot_le_lt. intros H. apply Qle_bool_iff in H. congruence. }
    replace (- (e - 1)) with (- e + 1) by lia.
    assert (x * 2 ^ (- e + 1) == 2 * (x * 2 ^ (- e)))%Q as ->
      by (rewrite two_pow_succ; ring).
    revert Hlo Hlt. generalize (x * 2 ^ (- e))%Q. intros s Hlo Hlt.
    change (2 ^ 51)%Q with 2251799813685248%Q in *.
    change (2 ^ 53)%Q with 9007199254740992%Q in *.
    change (2 ^ 52)%Q with 4503599627370496%Q in *.
    split; lra.
Qed.

Lemma round_pos_scaled (x : Q) :
  (x * 2 ^ (- binade x) * 2 ^ binade x == x)%Q.
Proof. rewrite <- Qmult_assoc, two_pow_cancel. ring. Qed.

Lemma rne_binade (x : Q) :
  (0 < x)%Q -> 2 ^ 52 <= rne (x * 2 ^ (- binade x)) <= 2 ^ 53.
Proof.
  intros Hx. destruct (binade_spec x Hx) as [Hlo Hhi].
  split.
  - rewrite <- (rne_inject_Z (2 ^ 52)). apply rne_mono. exact Hlo.
  - rewrite <- (rne_inject_Z (2 ^ 53)). apply rne_mono.
    apply Qlt_le_weak. exact Hhi.
Qed.

Lemma round_pos_pos (x : Q) : (0 < x)%Q -> (0 < round_pos x)%Q.
Proof.
  intros Hx. unfold round_pos.
  destruct (rne_binade x Hx) as [Hlo _].
  apply Qmult_lt_0_compat; [|apply two_pow_pos].
  change 0%Q with (inject_Z 0). rewrite <- Zlt_Qlt. lia.
Qed.

Lemma round_pos_mono (x y : Q) :
  (0 < x)%Q -> (x <= y)%Q -> (round_pos x <= round_pos y)%Q.
Proof.
  intros Hx Hxy. assert (0 < y)%Q as Hy by lra.
  destruct (binade_spec x Hx) as [Hx1 Hx2].
  destruct (binade_spec y Hy) as [Hy1 Hy2].
  destruct (rne_binade x Hx) as [Mx1 Mx2].
  destruct (rne_binade y Hy) as [My1 My2].
  pose proof (round_pos_scaled x) as Sx.
  pose proof (round_pos_scaled y) as Sy.
  pose proof (two_pow_pos (binade x)) as Px.
  pose proof (two_pow_pos (binade y)) as Py.
  unfold round_pos. cbv zeta.
  rewrite Zle_Qle in Mx1, Mx2, My1, My2.
  change (inject_Z (2 ^ 53)) with 9007199254740992%Q in *.
  change (inject_Z (2 ^ 52)) with 4503599627370496%Q in *.
  change (2 ^ 53)%Q with 9007199254740992%Q in *.
  change (2 ^ 52)%Q with 4503599627370496%Q in *.
  destruct (Z.lt_trichotomy (binade x) (binade y)) as [Hlt|[Heq|Hgt]].
  - assert (2 * 2 ^ binade x <= 2 ^ binade y)%Q as Hp.
    { rewrite <- two_pow_succ. apply Qpower_le_compat_l; [lia|done]. }
    revert Mx2 My1 Px Py Hp.
    generalize (inject_Z (rne (x * 2 ^ (- binade x))))
               (inject_Z (rne (y * 2 ^ (- binade y))))
               (2 ^ binade x)%Q (2 ^ binade y)%Q.
    intros mx my px py Mx2 My1 Px Py Hp. nra.
  - rewrite Heq. apply Qmult_le_compat_r; [|by apply Qlt_le_weak].
    rewrite <- Zle_Qle. apply rne_mono.
    apply Qmult_le_compat_r; [done|]. apply Qlt_le_weak, two_pow_pos.
  - exfalso.
    assert (2 * 2 ^ binade y <= 2 ^ binade x)%Q as Hp.
    { rewrite <- two_pow_succ. apply Qpower_le_compat_l; [lia|done]. }
    revert Hx1 Hy2 Sx Sy Px Py Hp Hxy.
    generalize (x * 2 ^ (- binade x))%Q (y * 2 ^ (- binade y))%Q
               (2 ^ binade x)%Q (2 ^ binade y)%Q.
    intros sx sy px py Hx1 Hy2 Sx Sy Px Py Hp Hxy.
    assert (sx * px <= sy * py)%Q as H by (rewrite Sx, Sy; done).
    nra.
Qed.

Lemma round_pos_error (x : Q) :
  (0 < x)%Q ->
  (x * (1 - (1 # 2 ^ 53)) <= round_pos x
   /\ round_pos x <= x * (1 + (1 # 2 ^ 53)))%Q.
Proof.
  intros Hx.
  destruct (binade_spec x Hx) as [Hx1 _].
  pose proof (round_pos_scaled x) as Sx.
  pose proof (two_pow_pos (binade x)) as Px.
  destruct (rne_near (x * 2 ^ (- binade x))) as [N1 N2].
  unfold round_pos. cbv zeta.
  change (2 ^ 52)%Q with 4503599627370496%Q in *.
  change (1 # 2 ^ 53)%Q with (1 # 9007199254740992)%Q.
  revert Hx1 Sx Px N1 N2.
  generalize (inject_Z (rne (x * 2 ^ (- binade x))))
             (x * 2 ^ (- binade x))%Q (2 ^ binade x)%Q.
  intros m s p Hx1 Sx Px N1 N2.
  assert (x == s * p)%Q as -> by (by rewrite Sx).
  split; nra.
Qed.

Lemma Qred_sign (x : Q) :
  match Qnum (Qred x) with
  | 0 => (x == 0)%Q
  | Zpos _ => (0 < x)%Q
  | Zneg _ => (x < 0)%Q
  end.
Proof.
  pose proof (Qred_correct x) as H.
  destruct (Qred x) as [[|n|n] d] eqn:E; cbn [Qnum]; rewrite <- H;
    unfold Qeq, Qlt; simpl; lia.
Qed.

Lemma round_double_proper (x y : Q) :
  (x == y)%Q -> round_double x = round_double y.
Proof. intros H. unfold round_double. by rewrite (Qred_complete x y H). Qed.

Lemma round_double_sign (x : Q) :
  ((0 <= x)%Q -> (0 <= round_double x)%Q)
  /\ ((x <= 0)%Q -> (round_double x <= 0)%Q).
Proof.
  pose proof (Qred_sign x) as Hs. pose proof (Qred_correct x) as Hr.
  unfold round_double. cbv zeta.
  destruct (Qnum (Qred x)) eqn:E.
  - split; intros; lra.
  - pose proof (round_pos_pos (Qred x) ltac:(by rewrite Hr)). split; intros; lra.
  - pose proof (round_pos_pos (- Qred x) ltac:(rewrite Hr; lra)). split; intros; lra.
Qed.

Lemma round_double_mono (x y : Q) :
  (x <= y)%Q -> (round_double x <= round_double y)%Q.
Proof.
  intros Hxy.
  pose proof (Qred_sign x) as Sx. pose proof (Qred_correct x) as Rx.
  pose proof (Qred_sign y) as Sy. pose proof (Qred_correct y) as Ry.
  unfold round_double. cbv zeta.
  destruct (Qnum (Qred x)) eqn:Ex, (Qnum (Qred y)) eqn:Ey; try lra.
  - pose proof (round_pos_pos (Qred y) ltac:(by rewrite Ry)). lra.
  - apply round_pos_mono; rewrite ?Rx, ?Ry; done.
  - pose proof (round_pos_pos (- Qred x) ltac:(rewrite Rx; lra)). lra.
  - pose proof (round_pos_pos (- Qred x) ltac:(rewrite Rx; lra)).
    pose proof (round_pos_pos (Qred y) ltac:(by rewrite Ry)). lra.
  - apply Qopp_le_compat. apply round_pos_mono; rewrite ?Rx, ?Ry; lra.
Qed.

Lemma round_double_error (x : Q) :
  (Qabs (round_double x - x) <= (1 # 2 ^ 53) * Qabs x)%Q.
Proof.
  pose proof (Qred_sign x) as Sx. pose proof (Qred_correct x) as Rx.
  unfold round_double. cbv zeta.
  destruct (Qnum (Qred x)) eqn:Ex.
  - rewrite Sx. vm_compute. discriminate.
  - destruct (round_pos_error (Qred x) ltac:(by rewrite Rx)) as [H1 H2].
    revert H1 H2. generalize (round_pos (Qred x)). intros r H1 H2.
    rewrite Rx in H1, H2. rewrite (Qabs_pos x) by lra.
    apply Qabs_Qle_condition. change (1 # 2 ^ 53)%Q with (1 # 9007199254740992)%Q in *.
    split; lra.
  - destruct (round_pos_error (- Qred x) ltac:(rewrite Rx; lra)) as [H1 H2].
    revert H1 H2. generalize (round_pos (- Qred x)). intros r H1 H2.
    rewrite Rx in H1, H2. rewrite (Qabs_neg x) by lra.
    apply Qabs_Qle_condition. change (1 # 2 ^ 53)%Q with (1 # 9007199254740992)%Q in *.
    split; lra.
Qed.

(** ** Responsive scale *)

Lemma Math_min2_Qmin (a b : Q) : (Math_min2 a b == Qmin a b)%Q.
Proof.
  unfold Math_min2. destruct (Qle_bool b a) eqn:Hle.
  - apply Qle_bool_iff in Hle. symmetry. by apply Q.min_r.
  - symmetry. apply Q.min_l. apply Qlt_le_weak, Qnot_le_lt.
    intros Hba. apply Qle_bool_iff in Hba. congruence.
Qed.

Lemma Math_max2_Qmax (a b : Q) : (Math_max2 a b == Qmax a b)%Q.
Proof.
  unfold Math_max2. destruct (Qle_bool a b) eqn:Hle.
  - apply Qle_bool_iff in Hle. symmetry. by apply Q.max_r.
  - symmetry. apply Q.max_l. apply Qlt_le_weak, Qnot_le_lt.
    intros Hab. apply Qle_bool_iff in Hab. congruence.
Qed.

Lemma responsive_scale_spec (viewportWidth viewportHeight : Z) :
  (responsive_scale viewportWidth viewportHeight ==
   spec_scale
     (inject_Z (viewportWidth - (if viewportWidth <? 768 then 20 else 40)))
     (inject_Z (viewportHeight - (if viewportWidth <? 768 then 100 else 200))))%Q.
Proof.
  unfold responsive_scale, spec_scale, Math_min, Math_max. simpl foldl.
  rewrite Math_max2_Qmax, Math_min2_Qmin, Math_min2_Qmin.
  apply Q.max_compat; reflexivity.
Qed.

Lemma spec_scale_bounds (availableWidth availableHeight : Q) :
  (1 # 4 <= spec_scale availableWidth availableHeight
   /\ spec_scale availableWidth availableHeight <= 1)%Q.
Proof.
  unfold spec_scale. split.
  - apply Q.le_max_r.
  - apply Q.max_lub; [apply Q.le_min_r|done].
Qed.

(** A quotient of the script lies within a relative [2^-53] of the exact
    quotient, and so does the factor. *)
Lemma Number_divide_near (a b : Q) :
  (0 <= a / b)%Q ->
  (a / b * (1 - (1 # 2 ^ 53)) <= Number_divide a b
   /\ Number_divide a b <= a / b * (1 + (1 # 2 ^ 53)))%Q.
Proof.
  intros H. unfold Number_divide.
  pose proof (round_double_error (a / b)) as He.
  rewrite (Qabs_pos (a / b)) in He by done.
  apply Qabs_Qle_condition in He.
  change (1 # 2 ^ 53)%Q with (1 # 9007199254740992)%Q in *.
  destruct He. split; lra.
Qed.

Lemma spec_scale_real (aw ah : Q) :
  (Qabs (spec_scale aw ah - real_scale aw ah)
   <= (1 # 2 ^ 53) * real_scale aw ah)%Q.
Proof.
  unfold spec_scale, real_scale.
  pose proof (proj2 (round_double_sign (aw / 1123))) as Nx.
  pose proof (proj2 (round_double_sign (ah / 794))) as Ny.
  pose proof (Number_divide_near aw 1123) as Px.
  pose proof (Number_divide_near ah 794) as Py.
  unfold Number_divide in *.
  revert Nx Ny Px Py.
  generalize (round_double (aw / 1123)) (round_double (ah / 794)).
  generalize (aw / 1123)%Q (ah / 794)%Q.
  intros x y fx fy Nx Ny Px Py.
  change (1 # 2 ^ 53)%Q with (1 # 9007199254740992)%Q in *.
  apply Qabs_Qle_condition.
  pose proof (Q.min_spec fx fy) as S1. revert S1.
  generalize (Qmin fx fy). intros m1 S1.
  pose proof (Q.min_spec m1 1) as S2. revert S2.
  generalize (Qmin m1 1). intros m2 S2.
  pose proof (Q.max_spec m2 (1 # 4)) as S3. revert S3.
  generalize (Qmax m2 (1 # 4)). intros m3 S3.
  pose proof (Q.min_spec x y) as T1. revert T1.
  generalize (Qmin x y). intros n1 T1.
  pose proof (Q.min_spec n1 1) as T2. revert T2.
  generalize (Qmin n1 1). intros n2 T2.
  pose proof (Q.max_spec n2 (1 # 4)) as T3. revert T3.
  generalize (Qmax n2 (1 # 4)). intros n3 T3.
  destruct (Qlt_le_dec x 0) as [Hx|Hx];
    [specialize (Nx ltac:(lra)); clear Px|specialize (Px Hx); clear Nx];
  (destruct (Qlt_le_dec y 0) as [Hy|Hy];
    [specialize (Ny ltac:(lra)); clear Py|specialize (Py Hy); clear Ny]);
  destruct S1 as [[? ?]|[? ?]], S2 as [[? ?]|[? ?]], S3 as [[? ?]|[? ?]],
    T1 as [[? ?]|[? ?]], T2 as [[? ?]|[? ?]], T3 as [[? ?]|[? ?]];
  repeat match goal with H : _ /\ _ |- _ => destruct H end; split; lra.
Qed.

(** C6: for all viewport dimensions, the factor [applyResponsiveScale]
    applies to the certificate container is
    max(min(availableWidth/1123, availableHeight/794, 1), 0.25), where the
    available sizes are the viewport sizes minus the padding (20 and 100
    below a viewport width of 768, 40 and 200 from there on) and the two
    quotients are those of the script, each rounded to the nearest double;
    the factor lies between 0.25 and 1, and within a relative 2^-53 of
    the same formula over the reals. *)
Theorem applyResponsiveScale_formula (h : Host) (w : World) (el : option Q) :
  container w = Some el ->
  exists scale : Q,
    container (applyResponsiveScale h w) = Some (Some scale)
    /\ (scale ==
        spec_scale
          (inject_Z (innerWidth h - (if innerWidth h <? 768 then 20 else 40)))
          (inject_Z (innerHeight h - (if innerWidth h <? 768 then 100 else 200))))%Q
    /\ (1 # 4 <= scale)%Q /\ (scale <= 1)%Q
    /\ (Qabs
          (scale -
           real_scale
             (inject_Z (innerWidth h - (if innerWidth h <? 768 then 20 else 40)))
             (inject_Z
                (innerHeight h - (if innerWidth h <? 768 then 100 else 200))))
        <= (1 # 2 ^ 53) *
           real_scale
             (inject_Z (innerWidth h - (if innerWidth h <? 768 then 20 else 40)))
             (inject_Z
                (innerHeight h - (if innerWidth h <? 768 then 100 else 200))))%Q.
Proof.
  intros Hc. exists (responsive_scale (innerWidth h) (innerHeight h)).
  split.
  - unfold applyResponsiveScale. rewrite Hc. simpl.
    destruct (wrapper w); reflexivity.
  - split; [apply responsive_scale_spec|].
    rewrite responsive_scale_spec.
    split; [apply spec_scale_bounds|]. split; [apply spec_scale_bounds|].
    apply spec_scale_real.
Qed.

Lemma applyResponsiveScale_formula_witness :
  container page = Some None
  /\ exists scale : Q,
       container (applyResponsiveScale (host [] [] no_fault no_fault) page)
         = Some (Some scale)
       /\ (scale == spec_scale (inject_Z 1360) (inject_Z 700))%Q
       /\ (scale == 7940855766144451 # 9007199254740992)%Q.
Proof.
  split; [reflexivity|].
  destruct (applyResponsiveScale_formula (host [] [] no_fault no_fault) page
              None eq_refl) as (scale & Hs & He & _).
  exists scale. split; [exact Hs|]. split; [exact He|].
  rewrite He. vm_compute. reflexivity.
Defined.

(** A desktop viewport, where the rounded quotient is not the exact one;
    a phone, where the narrow padding applies; the floor; the cap. *)
Example responsive_scale_examples :
  (responsive_scale 1400 900 == 7940855766144451 # 9007199254740992)%Q
  /\ ~ (responsive_scale 1400 900 == 350 # 397)%Q
  /\ (responsive_scale 375 667 == 1423666845695927 # 4503599627370496)%Q
  /\ (responsive_scale 200 300 == 1 # 4)%Q
  /\ (responsive_scale 1920 1080 == 1)%Q.
Proof. repeat split; by vm_compute. Qed.

(** ** Deterrent handlers *)

Lemma enableClientProtection_installed (w : World) :
  is_Some (_protectionHandlers w) -> enableClientProtection w = w.
Proof. intros [p Hp]. unfold enableClientProtection. by rewrite Hp. Qed.

Lemma enableClientProtection_sets_flag (w : World) :
  is_Some (_protectionHandlers (enableClientProtection w)).
Proof.
  unfold enableClientProtection.
  destruct (_protectionHandlers w) as [p|] eqn:Hp; [by rewrite Hp|done].
Qed.

Lemma disableClientProtection_clears_flag (w : World) :
  _protectionHandlers (disableClientProtection w) = None.
Proof.
  unfold disableClientProtection.
  destruct (_protectionHandlers w) as [[a b]|] eqn:Hp; done.
Qed.

Lemma disableClientProtection_not_installed (w : World) :
  _protectionHandlers w = None -> disableClientProtection w = w.
Proof. intros Hp. unfold disableClientProtection. by rewrite Hp. Qed.

Lemma filter_ne_fresh (l : Listener) (ls : list Listener) :
  l ∉ ls -> filter (fun x => x ≠ l) ls = ls.
Proof.
  induction ls as [|x ls IH]; [done|].
  intros Hl. apply not_elem_of_cons in Hl as [Hx Hl].
  rewrite filter_cons_True by done. by rewrite IH.
Qed.

Lemma fresh_closure_not_registered (ls : list Listener) (n : nat) (l : Listener) :
  Forall (fun x => (l_fn x < n)%nat) ls -> (n <= l_fn l)%nat -> l ∉ ls.
Proof.
  intros Hall Hn Hin. rewrite Forall_forall in Hall.
  specialize (Hall l Hin). lia.
Qed.

Lemma enableClientProtection_registration (base : list Listener) (w : World) :
  registration base w -> registration base (enableClientProtection w).
Proof.
  intros (Hl & Ha & Hb).
  destruct (_protectionHandlers w) as [p|] eqn:Hp.
  { rewrite enableClientProtection_installed by by rewrite Hp. done. }
  unfold installed in Hl. rewrite Hp, app_nil_r in Hl.
  unfold closures_allocated in Ha. rewrite Hl in Ha.
  set (n := next_closure w) in *.
  set (l1 := mkListener "contextmenu" n false).
  set (l2 := mkListener "keydown" (S n) true).
  assert (l1 ∉ base) as H1
    by (apply (fresh_closure_not_registered base n); simpl; [done|lia]).
  assert (l2 ∉ base) as H2
    by (apply (fresh_closure_not_registered base n); simpl; [done|lia]).
  assert (l2 ∉ base ++ [l1]) as H2'.
  { rewrite elem_of_app, list_elem_of_singleton. intros [?|?]; done. }
  assert (listeners (enableClientProtection w) = base ++ [l1; l2]) as Hnew.
  { unfold enableClientProtection. rewrite Hp. fold n. fold l1. fold l2.
    unfold addEventListener. simpl. rewrite Hl.
    rewrite (bool_decide_eq_false_2 _ H1). simpl.
    rewrite (bool_decide_eq_false_2 _ H2'). simpl.
    by rewrite <- app_assoc. }
  assert (_protectionHandlers (enableClientProtection w) = Some (n, S n)) as Hflag.
  { unfold enableClientProtection. rewrite Hp. reflexivity. }
  assert (next_closure (enableClientProtection w) = S (S n)) as Hnext.
  { unfold enableClientProtection. rewrite Hp. fold n.
    unfold addEventListener. simpl. rewrite Hl.
    rewrite (bool_decide_eq_false_2 _ H1). simpl.
    rewrite (bool_decide_eq_false_2 _ H2'). reflexivity. }
  unfold registration, closures_allocated, installed.
  rewrite Hnew, Hflag, Hnext. split; [done|]. split.
  - apply Forall_app. split.
    + eapply Forall_impl; [exact Ha|]. simpl. intros; lia.
    + repeat constructor; simpl; lia.
  - repeat constructor; done.
Qed.

Lemma disableClientProtection_registration (base : list Listener) (w : World) :
  registration base w -> registration base (disableClientProtection w).
Proof.
  intros (Hl & Ha & Hb).
  destruct (_protectionHandlers w) as [[a b]|] eqn:Hp.
  2:{ rewrite disableClientProtection_not_installed by done. done. }
  unfold installed in Hl, Hb. rewrite Hp in Hl, Hb.
  apply Forall_cons in Hb as [H1 Hb]. apply Forall_cons in Hb as [H2 _].
  assert (listeners (disableClientProtection w) = base) as Hnew.
  { unfold disableClientProtection. rewrite Hp.
    unfold removeEventListener. simpl. rewrite Hl.
    rewrite (filter_app _ base), (filter_ne_fresh _ base H1).
    rewrite filter_cons_False by (intros Hne; by apply Hne).
    rewrite filter_cons_True by done. rewrite filter_nil.
    rewrite (filter_app _ base), (filter_ne_fresh _ base H2).
    rewrite filter_cons_False by (intros Hne; by apply Hne).
    by rewrite filter_nil, app_nil_r. }
  assert (next_closure (disableClientProtection w) = next_closure w) as Hnext.
  { unfold disableClientProtection. by rewrite Hp. }
  unfold registration, closures_allocated, installed.
  rewrite Hnew, Hnext, disableClientProtection_clears_flag, app_nil_r.
  split; [done|]. split; [|constructor].
  unfold closures_allocated in Ha. rewrite Hl in Ha.
  by apply Forall_app in Ha as [? _].
Qed.

Lemma calls_registration (base : list Listener) (calls : list ProtectionCall)
  (w : World) :
  registration base w -> registration base (foldl call w calls).
Proof.
  revert w. induction calls as [|c calls IH]; intros w Hr; simpl; [done|].
  apply IH. destruct c; simpl.
  - by apply enableClientProtection_registration.
  - by apply disableClientProtection_registration.
Qed.

(** C9: [enableClientProtection] changes nothing when the handlers are
    installed, so it is idempotent, and after any sequence of enable and
    disable calls the document carries the page's own listeners and at
    most the one recorded pair; [disableClientProtection] clears the flag
    and changes nothing when no handlers are installed. *)
Theorem client_protection_single_registration
  (w : World) (calls : list ProtectionCall) :
  _protectionHandlers w = None -> closures_allocated w ->
  (listeners (foldl call w calls)
     = listeners w ++ installed (foldl call w calls)
   /\ (List.length (installed (foldl call w calls)) <= 2)%nat)
  /\ (forall v, is_Some (_protectionHandlers v) -> enableClientProtection v = v)
  /\ (forall v, enableClientProtection (enableClientProtection v)
                = enableClientProtection v)
  /\ (forall v, _protectionHandlers (disableClientProtection v) = None)
  /\ (forall v, _protectionHandlers v = None -> disableClientProtection v = v)
  /\ (forall v, disableClientProtection (disableClientProtection v)
                = disableClientProtection v).
Proof.
  intros Hp Ha. split; [|split; [|split; [|split; [|split]]]].
  - assert (registration (listeners w) w) as Hr.
    { unfold registration, installed. rewrite Hp, app_nil_r.
      split; [done|]. split; [done|constructor]. }
    apply (calls_registration _ calls) in Hr as (Hl & _ & _).
    split; [done|]. unfold installed.
    destruct (_protectionHandlers (foldl call w calls)) as [[a b]|];
      simpl; lia.
  - apply enableClientProtection_installed.
  - intros v. apply enableClientProtection_installed,
      enableClientProtection_sets_flag.
  - apply disableClientProtection_clears_flag.
  - apply disableClientProtection_not_installed.
  - intros v. apply disableClientProtection_not_installed,
      disableClientProtection_clears_flag.
Qed.

Lemma client_protection_single_registration_witness :
  _protectionHandlers page = None /\ closures_allocated page
  /\ listeners (foldl call page [Enable; Enable; Disable; Enable; Enable])
     = listeners page
       ++ installed (foldl call page [Enable; Enable; Disable; Enable; Enable]).
Proof.
  split; [reflexivity|]. split; [constructor|].
  destruct (client_protection_single_registration page
              [Enable; Enable; Disable; Enable; Enable] eq_refl
              (List.Forall_nil _)) as ((Hl & _) & _).
  exact Hl.
Defined.

(** Repeated enabling registers the pair once. *)
Example enable_twice_registers_once :
  listeners (enableClientProtection (enableClientProtection page))
  = [mkListener "contextmenu" 0 false; mkListener "keydown" 1 true].
Proof. reflexivity. Qed.

(** ** Form gate *)

Lemma re_match_RString (lit : string) (s t : jsstring) :
  re_match (RString lit) s = Some t <-> s = js lit ++ t.
Proof.
  unfold RString. generalize (js lit) as l. intros l. revert s.
  induction l as [|c l IH]; intros s; simpl.
  - split; [by intros [= ->]|by intros ->].
  - destruct s as [|x s]; [done|].
    destruct (N.eqb_spec x c) as [->|Hne].
    + rewrite IH. split; [by intros ->|by intros [= ->]].
    + split; [done|]. intros [= ? _]. done.
Qed.

Lemma re_match_seq (r1 r2 : Regex) (s : jsstring) :
  re_match (RSeq r1 r2) s =
  match re_match r1 s with
  | Some t => re_match r2 t
  | None => None
  end.
Proof. reflexivity. Qed.

Lemma re_match_repeat_S (r : Regex) (n : nat) (s : jsstring) :
  re_match (RRepeat r (S n)) s =
  match re_match r s with
  | Some t => re_match (RRepeat r n) t
  | None => None
  end.
Proof. reflexivity. Qed.

Lemma re_match_repeat_class (p : N -> bool) (n : nat) (s t : jsstring) :
  re_match (RRepeat (RClass p) n) s = Some t
  <-> exists pre : jsstring,
        s = pre ++ t /\ List.length pre = n
        /\ Forall (fun c => p c = true) pre.
Proof.
  revert s. induction n as [|n IH]; intros s.
  - simpl. split.
    + intros [= ->]. by exists [].
    + intros (pre & -> & Hlen & _). by destruct pre.
  - rewrite re_match_repeat_S. destruct s as [|x s].
    + simpl. split; [done|]. intros (pre & Hs & Hlen & _).
      destruct pre; done.
    + change (re_match (RClass p) (x :: s))
        with (if p x then Some s else None).
      destruct (p x) eqn:Hx.
      * rewrite IH. split.
        -- intros (pre & -> & Hlen & Hall). exists (x :: pre).
           split; [done|]. split; [by simpl; rewrite Hlen|].
           by constructor.
        -- intros (pre & Hs & Hlen & Hall).
           destruct pre as [|y pre]; [done|]. injection Hs as <- ->.
           exists pre. split; [done|]. split; [by injection Hlen|].
           by apply Forall_inv_tail in Hall.
      * split; [done|]. intros (pre & Hs & Hlen & Hall).
        destruct pre as [|y pre]; [done|]. injection Hs as <- ->.
        apply Forall_inv in Hall. congruence.
Qed.

Lemma id_pattern_spec (s : jsstring) :
  regex_test id_pattern s = true <-> is_certificate_identifier s.
Proof.
  unfold regex_test, id_pattern, is_certificate_identifier.
  rewrite bool_decide_eq_true, re_match_seq. split.
  - destruct (re_match (RString "PTSC") s) as [t1|] eqn:H1; [|done].
    apply re_match_RString in H1 as ->. rewrite re_match_seq.
    destruct (re_match (RRepeat (RClass is_digit) 4) t1) as [t2|] eqn:H2;
      [|done].
    apply re_match_repeat_class in H2 as (year & -> & Hly & Hy).
    rewrite re_match_seq. destruct t2 as [|x t3]; [done|].
    change (re_match (RChar 45) (x :: t3))
      with (if (x =? 45)%N then Some t3 else None).
    destruct (N.eqb_spec x 45) as [->|]; [|done].
    intros H3. apply re_match_repeat_class in H3 as (number & -> & Hln & Hn).
    exists year, number. rewrite app_nil_r. done.
  - intros (year & number & Hly & Hln & Hy & Hn & ->).
    rewrite (proj2 (re_match_RString "PTSC" _ (year ++ js "-" ++ number)))
      by done.
    rewrite re_match_seq.
    rewrite (proj2 (re_match_repeat_class is_digit 4 _ (js "-" ++ number)))
      by by exists year.
    rewrite re_match_seq.
    change (re_match (RChar 45) (js "-" ++ number)) with (Some number).
    apply re_match_repeat_class. exists number. by rewrite app_nil_r.
Qed.

Lemma key_pattern_spec (s : jsstring) :
  regex_test key_pattern s = true <-> is_verification_key s.
Proof.
  unfold regex_test, key_pattern, is_verification_key.
  rewrite bool_decide_eq_true, re_match_repeat_class. split.
  - intros (pre & -> & Hlen & Hall). by rewrite app_nil_r.
  - intros [Hlen Hall]. exists s. by rewrite app_nil_r.
Qed.

Lemma digit_unreserved (c : N) : is_digit c = true -> uri_unreserved c = true.
Proof.
  unfold uri_unreserved, is_alnum, is_digit. intros ->.
  by rewrite !orb_true_r.
Qed.

Lemma alnum_unreserved (c : N) : is_alnum c = true -> uri_unreserved c = true.
Proof. unfold uri_unreserved. by intros ->. Qed.

(** [encodeURIComponent] leaves a string of unreserved characters as it
    is. *)
Lemma uri_encode_unreserved (s : jsstring) :
  Forall (fun c => uri_unreserved c = true) s -> uri_encode s = Some s.
Proof.
  induction 1 as [|c r Hc _ IH]; [done|].
  cbn [uri_encode]. by rewrite Hc, IH.
Qed.

Lemma identifier_unreserved (s : jsstring) :
  is_certificate_identifier s -> Forall (fun c => uri_unreserved c = true) s.
Proof.
  intros (year & number & _ & _ & Hy & Hn & ->).
  repeat apply Forall_app_2.
  - repeat constructor.
  - eapply Forall_impl; [exact Hy|]. apply digit_unreserved.
  - repeat constructor.
  - eapply Forall_impl; [exact Hn|]. apply digit_unreserved.
Qed.

Lemma key_unreserved (s : jsstring) :
  is_verification_key s -> Forall (fun c => uri_unreserved c = true) s.
Proof.
  intros [_ Hall]. eapply Forall_impl; [exact Hall|]. apply alnum_unreserved.
Qed.

Lemma identifier_truthy (s : jsstring) :
  is_certificate_identifier s -> truthy (VString s) = true.
Proof. intros (year & number & _ & _ & _ & _ & ->). reflexivity. Qed.

Lemma key_truthy (s : jsstring) :
  is_verification_key s -> truthy (VString s) = true.
Proof. intros [Hlen _]. by destruct s. Qed.

Lemma handleFormSubmit_accepts (form : Form) (w : World) (id key : jsstring) :
  gate_accepts form id key ->
  handleFormSubmit form w =
    (Normal (),
     set_location_href
       (Some (js "certificate.html?id=" ++ id ++ js "&key=" ++ key)) w).
Proof.
  intros (Hi & Hk & Hid & Hkey).
  unfold handleFormSubmit, try_catch. cbv zeta. rewrite Hi, Hk.
  cbn [field default from_option Datatypes.id].
  rewrite (identifier_truthy id Hid), (key_truthy key Hkey).
  rewrite (proj2 (id_pattern_spec id) Hid), (proj2 (key_pattern_spec key) Hkey).
  cbn [negb orb]. unfold encodeURIComponent, mbind, M_bind.
  rewrite (uri_encode_unreserved id (identifier_unreserved id Hid)).
  rewrite (uri_encode_unreserved key (key_unreserved key Hkey)).
  reflexivity.
Qed.

Lemma handleFormSubmit_rejects (form : Form) (w : World) :
  (~ exists id key, gate_accepts form id key) ->
  exists msg : string,
    handleFormSubmit form w = (Normal (), set_alerts (alerts w ++ [msg]) w).
Proof.
  intros Hno. unfold handleFormSubmit, try_catch. cbv zeta.
  destruct (trim <$> form_certificateId form) as [id|] eqn:Hi;
    destruct (trim <$> form_certificateKey form) as [key|] eqn:Hk;
    cbn [field default from_option Datatypes.id].
  2-4: (cbn [truthy negb orb]; rewrite ?orb_true_r; eexists; reflexivity).
  destruct (truthy (VString id)), (truthy (VString key)); cbn [negb orb];
    try (eexists; reflexivity).
  destruct (regex_test id_pattern id) eqn:Hid; cbn [negb];
    [|eexists; reflexivity].
  destruct (regex_test key_pattern key) eqn:Hkey; cbn [negb];
    [|eexists; reflexivity].
  exfalso. apply Hno. exists id, key.
  split; [done|]. split; [done|].
  split; [by apply id_pattern_spec|by apply key_pattern_spec].
Qed.

(** C7: the form gate navigates to the verification page exactly when the
    trimmed identifier is [PTSC], four digits, a dash and four digits, and
    the trimmed key is ten alphanumeric characters; every other submission
    raises one alert and leaves the location alone.  [PTSC2025-0123] and
    [ABCDEFGHIJ] pass, [PTSC25-123] and the nine-character [ABCDEFGHI] do
    not. *)
Theorem handleFormSubmit_gate (form : Form) (w : World) :
  (forall s, regex_test id_pattern s = true <-> is_certificate_identifier s)
  /\ (forall s, regex_test key_pattern s = true <-> is_verification_key s)
  /\ (forall id key : jsstring,
        gate_accepts form id key ->
        exec (handleFormSubmit form) w =
          set_location_href
            (Some (js "certificate.html?id=" ++ id ++ js "&key=" ++ key)) w)
  /\ ((~ exists id key, gate_accepts form id key) ->
        location_href (exec (handleFormSubmit form) w) = location_href w
        /\ exists msg : string,
             exec (handleFormSubmit form) w = set_alerts (alerts w ++ [msg]) w)
  /\ regex_test id_pattern (js "PTSC2025-0123") = true
  /\ regex_test id_pattern (js "PTSC25-123") = false
  /\ regex_test key_pattern (js "ABCDEFGHIJ") = true
  /\ regex_test key_pattern (js "ABCDEFGHI") = false.
Proof.
  split; [apply id_pattern_spec|]. split; [apply key_pattern_spec|].
  split; [|split].
  - intros id key Hok. unfold exec.
    by rewrite (handleFormSubmit_accepts form w id key Hok).
  - intros Hno. destruct (handleFormSubmit_rejects form w Hno) as [msg Hmsg].
    unfold exec. rewrite Hmsg. split; [done|]. by exists msg.
  - repeat split; vm_compute; reflexivity.
Qed.

Lemma handleFormSubmit_gate_witness :
  gate_accepts (mkForm (Some (js " PTSC2025-0123 ")) (Some (js "ABCDEFGHIJ")))
    (js "PTSC2025-0123") (js "ABCDEFGHIJ")
  /\ location_href
       (exec (handleFormSubmit
                (mkForm (Some (js " PTSC2025-0123 ")) (Some (js "ABCDEFGHIJ"))))
          page)
     = Some (js "certificate.html?id=PTSC2025-0123&key=ABCDEFGHIJ").
Proof.
  assert (gate_accepts
            (mkForm (Some (js " PTSC2025-0123 ")) (Some (js "ABCDEFGHIJ")))
            (js "PTSC2025-0123") (js "ABCDEFGHIJ")) as Hok.
  { split; [reflexivity|]. split; [reflexivity|]. split.
    - exists (js "2025"), (js "0123").
      split; [reflexivity|]. split; [reflexivity|].
      split; [repeat constructor|]. split; [repeat constructor|reflexivity].
    - split; [reflexivity|repeat constructor]. }
  split; [exact Hok|].
  destruct (handleFormSubmit_gate
              (mkForm (Some (js " PTSC2025-0123 ")) (Some (js "ABCDEFGHIJ")))
              page) as (_ & _ & Hnav & _).
  rewrite (Hnav _ _ Hok). reflexivity.
Defined.

(** ** Export pipeline *)

Lemma fresh_node_bound (nodes : list nat) (x : nat) :
  x ∈ nodes -> (x < fresh_node nodes)%nat.
Proof.
  unfold fresh_node. induction nodes as [|y nodes IH]; [by intros ?%elem_of_nil|].
  intros [->|Hx]%elem_of_cons; simpl; [lia|]. specialize (IH Hx). lia.
Qed.

Lemma fresh_node_not_in (nodes : list nat) : fresh_node nodes ∉ nodes.
Proof. intros Hin%fresh_node_bound. lia. Qed.

Lemma filter_ne_absent (n : nat) (nodes : list nat) :
  n ∉ nodes -> filter (fun x => x ≠ n) nodes = nodes.
Proof.
  induction nodes as [|x nodes IH]; [done|].
  intros [Hx Hn]%not_elem_of_cons.
  rewrite filter_cons_True by done. by rewrite IH.
Qed.

(** Appending the clone and removing it again restores the children. *)
Lemma append_then_remove (nodes : list nat) :
  fresh_node nodes
    ∈ filter (fun x => x ≠ fresh_node nodes) nodes ++ [fresh_node nodes]
  /\ filter (fun x => x ≠ fresh_node nodes)
       (filter (fun x => x ≠ fresh_node nodes) nodes ++ [fresh_node nodes])
     = nodes.
Proof.
  pose proof (fresh_node_not_in nodes) as Hf.
  rewrite (filter_ne_absent _ nodes Hf). split.
  - apply elem_of_app. right. by apply list_elem_of_singleton.
  - rewrite filter_app, (filter_ne_absent _ nodes Hf).
    rewrite filter_cons_False by (intros Hne; by apply Hne).
    by rewrite filter_nil, app_nil_r.
Qed.

(** [enableClientProtection] touches the listeners, the flag and the
    closure counter only. *)
Lemma enableClientProtection_frame (w : World) :
  body_children (enableClientProtection w) = body_children w
  /\ navigation (enableClientProtection w) = navigation w
  /\ alerts (enableClientProtection w) = alerts w
  /\ trace (enableClientProtection w) = trace w
  /\ loadingState (enableClientProtection w) = loadingState w
  /\ errorState (enableClientProtection w) = errorState w
  /\ certificateState (enableClientProtection w) = certificateState w.
Proof.
  unfold enableClientProtection, addEventListener.
  destruct (_protectionHandlers w); [done|].
  repeat (case_bool_decide; simpl); done.
Qed.

Ltac export_step :=
  cbv beta iota zeta;
  match goal with
  | |- context [if export_raises ?h ?s then _ else _] =>
      destruct (export_raises h s)
  | |- context [if str_eq ?a ?b then _ else _] => destruct (str_eq a b)
  end.

Ltac no_download :=
  let f := fresh "f" in
  let Hin := fresh "Hin" in
  intros f Hin;
  repeat (apply elem_of_cons in Hin as [Hin|Hin]; [discriminate Hin|]);
  by apply elem_of_nil in Hin.

(** The run of [downloadCertificate] on a page that has the container. *)
Lemma downloadCertificate_run (h : Host) (format : jsstring) (w : World)
  (el : option Q) :
  container w = Some el ->
  exists (w3 : World) (evs : list Event),
    downloadCertificate h format w = (Normal (), enableClientProtection w3)
    /\ body_children w3 = body_children w
    /\ navigation w3 = style_set "visible" (navigation w)
    /\ loadingState w3 = loadingState w
    /\ errorState w3 = errorState w
    /\ certificateState w3 = certificateState w
    /\ alerts w3
       = alerts w ++ (if export_fails h format then [download_failed] else [])
    /\ trace w3 = trace w ++ evs
    /\ (export_fails h format = true -> forall f, EvDownload f ∉ evs).
Proof.
  intros Hc.
  destruct (append_then_remove (body_children w)) as [Hin Hrm].
  unfold downloadCertificate, export_fails.
  unfold try_finally, try_catch, removeChild, guard_raise, emit, alert,
    console_error, modify, gets, mbind, M_bind, mret, M_ret, throw, appendChild.
  rewrite Hc.
  remember (fresh_node (body_children w)) as clone eqn:Eclone.
  remember (filter (fun x => x ≠ clone) (body_children w) ++ [clone])
    as children eqn:Echildren.
  repeat export_step.
  all: simpl.
  all: rewrite (bool_decide_eq_true_2 _ Hin); simpl; rewrite Hrm.
  all: eexists; eexists; split; [reflexivity|]; simpl.
  all: do 5 (split; [try reflexivity; by destruct (navigation w)|]).
  all: split; [by rewrite ?app_nil_r|].
  all: split;
    [first [symmetry; apply app_nil_r | rewrite <- app_assoc; reflexivity
           | reflexivity]|].
  all: first [intros _; no_download | intros Hf; simpl in Hf; discriminate Hf].
Qed.

(** C8: whenever the certificate container is present, a run of
    [downloadCertificate] returns normally with the children of the body
    as they were before the clone was appended and with the navigation
    visible, whether or not rasterisation, encoding or embedding raised;
    the three view regions are untouched, a failing run raises exactly one
    alert and records no download, and a successful run raises none. *)
Theorem downloadCertificate_cleans_up
  (h : Host) (format : jsstring) (w : World) (el : option Q) :
  container w = Some el ->
  result (downloadCertificate h format) w = Normal ()
  /\ body_children (exec (downloadCertificate h format) w) = body_children w
  /\ navigation (exec (downloadCertificate h format) w)
     = style_set "visible" (navigation w)
  /\ (loadingState (exec (downloadCertificate h format) w) = loadingState w
      /\ errorState (exec (downloadCertificate h format) w) = errorState w
      /\ certificateState (exec (downloadCertificate h format) w)
         = certificateState w)
  /\ (export_fails h format = true ->
        alerts (exec (downloadCertificate h format) w)
          = alerts w ++ [download_failed]
        /\ exists evs : list Event,
             trace (exec (downloadCertificate h format) w) = trace w ++ evs
             /\ forall f, EvDownload f ∉ evs)
  /\ (export_fails h format = false ->
        alerts (exec (downloadCertificate h format) w) = alerts w).
Proof.
  intros Hc.
  destruct (downloadCertificate_run h format w el Hc)
    as (w3 & evs & Hrun & Hb & Hn & Hl & He & Hs & Ha & Ht & Hd).
  destruct (enableClientProtection_frame w3)
    as (Fb & Fn & Fa & Ft & Fl & Fe & Fs).
  unfold result, exec. rewrite Hrun. simpl.
  rewrite Fb, Fn, Fa, Ft, Fl, Fe, Fs, Hb, Hn, Hl, He, Hs, Ha, Ht.
  split; [done|]. split; [done|]. split; [done|]. split; [done|]. split.
  - intros Hf. rewrite Hf. split; [done|]. exists evs. split; [done|].
    by apply Hd.
  - intros Hf. rewrite Hf. by rewrite app_nil_r.
Qed.

Lemma downloadCertificate_cleans_up_witness :
  container page = Some None
  /\ export_fails (host [] [] no_fault rasterize_raises) (js "pdf") = true
  /\ body_children
       (exec (downloadCertificate (host [] [] no_fault rasterize_raises)
                (js "pdf")) page) = body_children page
  /\ alerts
       (exec (downloadCertificate (host [] [] no_fault rasterize_raises)
                (js "pdf")) page) = alerts page ++ [download_failed].
Proof.
  split; [reflexivity|]. split; [reflexivity|].
  destruct (downloadCertificate_cleans_up
              (host [] [] no_fault rasterize_raises) (js "pdf") page None
              eq_refl) as (_ & Hb & _ & _ & Hfail & _).
  split; [exact Hb|]. exact (proj1 (Hfail eq_refl)).
Defined.

(** A successful export records the download under the name derived from
    the recipient and the identifier on the page. *)
Example download_pdf_events :
  trace (exec (downloadCertificate (host [] [] no_fault no_fault) (js "pdf"))
           page)
  = [EvRasterize; EvDownload (js "Certificate_PTSC_PTSC_Certificate.pdf")].
Proof. vm_compute. reflexivity. Qed.

(* ================================================================== *)
(** * Further properties of the script *)
(* ================================================================== *)

(** ** More on the parameter reader *)

Lemma parseURLParams_step_other (result : gmap jsstring jsstring)
  (key value name : jsstring) :
  key <> name -> parseURLParams_step result (key, value) !! name = result !! name.
Proof.
  intros Hne. unfold parseURLParams_step.
  destruct (truthy (get result key)); simpl; [done|].
  by rewrite lookup_insert_ne.
Qed.

Lemma parseURLParams_step_binds (result : gmap jsstring jsstring)
  (name value : jsstring) :
  name ∉ object_prototype -> missing result name ->
  parseURLParams_step result (name, value) !! name = Some value.
Proof.
  intros Hp Hm. unfold parseURLParams_step.
  rewrite (missing_not_truthy result name Hm Hp). simpl.
  by rewrite lookup_insert_eq.
Qed.

Lemma parseURLParams_step_inherited (result : gmap jsstring jsstring)
  (entry : jsstring * jsstring) (name : jsstring) :
  name ∈ object_prototype -> result !! name = None ->
  parseURLParams_step result entry !! name = None.
Proof.
  intros Hp Hn. destruct entry as [key value].
  destruct (decide (key = name)) as [->|Hne].
  - unfold parseURLParams_step, get. rewrite Hn.
    by rewrite (bool_decide_eq_true_2 _ Hp).
  - by rewrite parseURLParams_step_other.
Qed.

(** Occurrences of [name] with an empty value leave it missing. *)
Lemma parseURLParams_empty_prefix (pre : list (jsstring * jsstring))
  (result : gmap jsstring jsstring) (name : jsstring) :
  missing result name ->
  (forall v, (name, v) ∈ pre -> v = []) ->
  missing (foldl parseURLParams_step result pre) name.
Proof.
  revert result. induction pre as [|[key value] pre IH]; intros result Hm Hpre;
    cbn [foldl]; [done|].
  apply IH.
  - destruct (decide (key = name)) as [->|Hne].
    + rewrite (Hpre value) by apply list_elem_of_here.
      unfold missing, parseURLParams_step.
      destruct (truthy (get result name)); simpl; [done|].
      right. by rewrite lookup_insert_eq.
    + unfold missing. by rewrite parseURLParams_step_other.
  - intros v Hv. apply Hpre. by apply list_elem_of_further.
Qed.

Lemma parseURLParams_step_bound_from (result : gmap jsstring jsstring)
  (entry : jsstring * jsstring) (name v : jsstring) :
  parseURLParams_step result entry !! name = Some v ->
  result !! name = Some v \/ entry = (name, v).
Proof.
  destruct entry as [key value]. unfold parseURLParams_step.
  destruct (truthy (get result key)); simpl; [by left|].
  destruct (decide (key = name)) as [->|Hne].
  - rewrite lookup_insert_eq. intros [= ->]. by right.
  - rewrite lookup_insert_ne by done. by left.
Qed.

Lemma parseURLParams_bound_from (entries : list (jsstring * jsstring))
  (result : gmap jsstring jsstring) (name v : jsstring) :
  foldl parseURLParams_step result entries !! name = Some v ->
  result !! name = Some v \/ (name, v) ∈ entries.
Proof.
  revert result. induction entries as [|e entries IH]; intros result;
    cbn [foldl]; [by left|].
  intros [Hs|Hin]%IH.
  - apply parseURLParams_step_bound_from in Hs as [?| ->]; [by left|].
    right. apply list_elem_of_here.
  - right. by apply list_elem_of_further.
Qed.

Lemma parseURLParams_step_stays_bound (result : gmap jsstring jsstring)
  (entry : jsstring * jsstring) (name : jsstring) :
  is_Some (result !! name) -> is_Some (parseURLParams_step result entry !! name).
Proof.
  intros Hs. destruct entry as [key value]. unfold parseURLParams_step.
  destruct (truthy (get result key)); simpl; [done|].
  destruct (decide (key = name)) as [->|Hne].
  - rewrite lookup_insert_eq. by eexists.
  - by rewrite lookup_insert_ne.
Qed.

Lemma parseURLParams_stays_bound (entries : list (jsstring * jsstring))
  (result : gmap jsstring jsstring) (name : jsstring) :
  is_Some (result !! name) ->
  is_Some (foldl parseURLParams_step result entries !! name).
Proof.
  revert result. induction entries as [|e entries IH]; intros result Hs;
    cbn [foldl]; [done|].
  by apply IH, parseURLParams_step_stays_bound.
Qed.

Lemma parseURLParams_occurrence_binds (entries : list (jsstring * jsstring))
  (result : gmap jsstring jsstring) (name v : jsstring) :
  name ∉ object_prototype -> (name, v) ∈ entries ->
  is_Some (foldl parseURLParams_step result entries !! name).
Proof.
  intros Hp. revert result.
  induction entries as [|e entries IH]; intros result Hin; cbn [foldl].
  - by apply elem_of_nil in Hin.
  - apply elem_of_cons in Hin as [<-|Hin]; [|by apply IH].
    apply parseURLParams_stays_bound.
    destruct (result !! name) as [old|] eqn:Hold.
    + apply parseURLParams_step_stays_bound. by rewrite Hold.
    + rewrite parseURLParams_step_binds; [by eexists|done|by left].
Qed.

(** X1: a name that [Object.prototype] does not define is bound to the
    value of its first occurrence with a non-empty value: occurrences
    before it whose value is empty, and every occurrence after it, do not
    count. *)
Theorem parseURLParams_first_nonempty_value
  (h : Host) (pre post : list (jsstring * jsstring)) (name v : jsstring) :
  search_entries h = pre ++ (name, v) :: post ->
  name ∉ object_prototype ->
  v <> [] ->
  (forall v', (name, v') ∈ pre -> v' = []) ->
  parseURLParams h !! name = Some v
  /\ get (parseURLParams h) name = VString v.
Proof.
  intros He Hp Hv Hpre.
  assert (parseURLParams h !! name = Some v) as Hl.
  { unfold parseURLParams. rewrite He, foldl_app. cbn [foldl].
    apply parseURLParams_keeps; [|done].
    apply parseURLParams_step_binds; [done|].
    apply parseURLParams_empty_prefix; [by left|done]. }
  split; [done|]. unfold get. by rewrite Hl.
Qed.

Lemma parseURLParams_first_nonempty_value_witness :
  parseURLParams
    (host [(js "key", js ""); (js "id", js "A"); (js "key", js "K");
           (js "key", js "L")] [] no_fault no_fault) !! js "key"
  = Some (js "K").
Proof.
  refine (proj1 (parseURLParams_first_nonempty_value
            (host [(js "key", js ""); (js "id", js "A"); (js "key", js "K");
                   (js "key", js "L")] [] no_fault no_fault)
            [(js "key", js ""); (js "id", js "A")] [(js "key", js "L")]
            (js "key") (js "K") eq_refl _ _ _)).
  - apply (bool_decide_eq_false _). vm_compute. reflexivity.
  - discriminate.
  - intros v' Hin.
    apply elem_of_cons in Hin as [Hin|Hin]; [by injection Hin|].
    apply elem_of_cons in Hin as [Hin|Hin]; [discriminate Hin|].
    by apply elem_of_nil in Hin.
Defined.

(** X2: a parameter whose name [Object.prototype] defines ([toString],
    [constructor], [__proto__], ...) is never bound, whatever the query
    holds; reading it yields the inherited object, not a string. *)
Theorem parseURLParams_inherited_name_never_bound (h : Host) (name : jsstring) :
  name ∈ object_prototype ->
  parseURLParams h !! name = None
  /\ get (parseURLParams h) name = VObject.
Proof.
  intros Hp.
  assert (forall entries (result : gmap jsstring jsstring),
            result !! name = None ->
            foldl parseURLParams_step result entries !! name = None) as Hfold.
  { induction entries as [|e entries IH]; intros result Hn; cbn [foldl];
      [done|].
    by apply IH, parseURLParams_step_inherited. }
  assert (parseURLParams h !! name = None) as Hl by by apply Hfold.
  split; [done|]. unfold get. rewrite Hl.
  by rewrite (bool_decide_eq_true_2 _ Hp).
Qed.

Lemma parseURLParams_inherited_name_never_bound_witness :
  get (parseURLParams
         (host [(js "constructor", js "x"); (js "id", js "A")] []
            no_fault no_fault)) (js "constructor") = VObject.
Proof.
  refine (proj2 (parseURLParams_inherited_name_never_bound
            (host [(js "constructor", js "x"); (js "id", js "A")] []
               no_fault no_fault) (js "constructor") _)).
  apply (bool_decide_eq_true _). vm_compute. reflexivity.
Defined.

(** X3: the reader invents nothing and drops no ordinary name: a bound
    value is the value of some occurrence of that name in the query, and
    a name that [Object.prototype] does not define is bound exactly when
    it occurs. *)
Theorem parseURLParams_bound_iff_occurs (h : Host) (name : jsstring) :
  (forall v, parseURLParams h !! name = Some v -> (name, v) ∈ search_entries h)
  /\ (name ∉ object_prototype ->
      (is_Some (parseURLParams h !! name)
       <-> exists v, (name, v) ∈ search_entries h)).
Proof.
  split.
  - intros v Hv. unfold parseURLParams in Hv.
    by apply parseURLParams_bound_from in Hv as [Hv|Hv].
  - intros Hp. split.
    + intros [v Hv]. exists v. unfold parseURLParams in Hv.
      by apply parseURLParams_bound_from in Hv as [Hv|Hv].
    + intros [v Hv]. by apply (parseURLParams_occurrence_binds _ _ _ v).
Qed.

Lemma parseURLParams_bound_iff_occurs_witness :
  is_Some (parseURLParams
             (host [(js "id", js "")] [] no_fault no_fault) !! js "id")
  <-> exists v, (js "id", v) ∈ [(js "id", js "")].
Proof.
  refine (proj2 (parseURLParams_bound_iff_occurs
            (host [(js "id", js "")] [] no_fault no_fault) (js "id")) _).
  apply (bool_decide_eq_false _). vm_compute. reflexivity.
Defined.

(** ** Computations that cannot raise, and what they leave alone *)

Lemma never_raises_ret {A : Type} (a : A) : never_raises (mret a : M A).
Proof. intros w. by exists a. Qed.

Lemma never_raises_modify (f : World -> World) : never_raises (modify f).
Proof. intros w. by exists (). Qed.

Lemma never_raises_gets {A : Type} (f : World -> A) : never_raises (gets f).
Proof. intros w. by eexists. Qed.

Lemma never_raises_bind {A B : Type} (m : M A) (k : A -> M B) :
  never_raises m -> (forall a, never_raises (k a)) -> never_raises (m ≫= k).
Proof.
  intros Hm Hk w. destruct (Hm w) as [a Ha].
  unfold result, mbind, M_bind in *. destruct (m w) as [[a'|e] w']; [|done].
  simpl in Ha. apply Hk.
Qed.

Lemma never_raises_try_catch {A : Type} (body : M A) (handler : string -> M A) :
  (forall e, never_raises (handler e)) -> never_raises (try_catch body handler).
Proof.
  intros Hh w. unfold result, try_catch.
  destruct (body w) as [[a|e] w']; [by exists a|apply Hh].
Qed.

Lemma exec_bind {A B : Type} (m : M A) (k : A -> M B) (w : World) (a : A) :
  result m w = Normal a -> exec (m ≫= k) w = exec (k a) (exec m w).
Proof.
  unfold result, exec, mbind, M_bind. destruct (m w) as [[a'|e] w']; [|done].
  by intros [= ->].
Qed.

Lemma result_bind {A B : Type} (m : M A) (k : A -> M B) (w : World) (a : A) :
  result m w = Normal a -> result (m ≫= k) w = result (k a) (exec m w).
Proof.
  unfold result, exec, mbind, M_bind. destruct (m w) as [[a'|e] w']; [|done].
  by intros [= ->].
Qed.

Lemma keeps_ret {A B : Type} (f : World -> B) (a : A) : keeps f (mret a : M A).
Proof. by intros w. Qed.

Lemma keeps_throw {A B : Type} (f : World -> B) (e : string) :
  keeps f (throw e : M A).
Proof. by intros w. Qed.

Lemma keeps_gets {A B : Type} (f : World -> B) (g : World -> A) :
  keeps f (gets g).
Proof. by intros w. Qed.

Lemma keeps_modify {B : Type} (f : World -> B) (g : World -> World) :
  (forall w, f (g w) = f w) -> keeps f (modify g).
Proof. intros Hg w. apply Hg. Qed.

Lemma keeps_guard_raise {B : Type} (f : World -> B) (b : bool) (msg : string) :
  keeps f (guard_raise b msg).
Proof. by destruct b. Qed.

Lemma keeps_bind {A B C : Type} (f : World -> C) (m : M A) (k : A -> M B) :
  keeps f m -> (forall a, keeps f (k a)) -> keeps f (m ≫= k).
Proof.
  intros Hm Hk w. specialize (Hm w). unfold exec, mbind, M_bind in *.
  destruct (m w) as [[a|e] w']; simpl in *; [|done].
  rewrite <- Hm. apply Hk.
Qed.

Lemma keeps_try_catch {A C : Type} (f : World -> C) (body : M A)
  (handler : string -> M A) :
  keeps f body -> (forall e, keeps f (handler e)) ->
  keeps f (try_catch body handler).
Proof.
  intros Hb Hh w. specialize (Hb w). unfold exec, try_catch in *.
  destruct (body w) as [[a|e] w']; simpl in *; [done|].
  rewrite <- Hb. apply Hh.
Qed.

Lemma keeps_console_error {B : Type} (f : World -> B) (msg : string) :
  (forall c w, f (set_console c w) = f w) -> keeps f (console_error msg).
Proof. intros Hf. apply keeps_modify. intros w. apply Hf. Qed.

Ltac keeps_tac :=
  repeat first
    [ match goal with
      | |- keeps _ (if ?b then _ else _) => destruct b
      | |- keeps _ (match ?x with _ => _ end) => destruct x
      end
    | apply keeps_bind; [|intros ?]
    | apply keeps_try_catch; [|intros ?]
    | apply keeps_ret
    | apply keeps_throw
    | apply keeps_gets
    | apply keeps_guard_raise
    | apply keeps_modify; intros ?; try reflexivity ].

(** Observations that the display steps leave alone. *)
Lemma regions_present_showError (w : World) :
  regions_present (showError w) = regions_present w.
Proof.
  unfold regions_present, showError. simpl.
  by destruct (loadingState w), (errorState w), (certificateState w).
Qed.

Lemma regions_present_showLoading (w : World) :
  regions_present (showLoading w) = regions_present w.
Proof.
  unfold regions_present, showLoading. simpl.
  by destruct (loadingState w), (errorState w), (certificateState w).
Qed.

Lemma updateOpenGraphMeta_keeps {B : Type} (f : World -> B) (c : Certificate) :
  (forall t w, f (set_meta t w) = f w) ->
  (forall t w, f (set_console t w) = f w) ->
  keeps f (updateOpenGraphMeta c).
Proof.
  intros Hm Hc. unfold updateOpenGraphMeta, console_error.
  keeps_tac; first [apply Hm | apply Hc].
Qed.

Lemma updateOpenGraphMeta_never_raises (c : Certificate) :
  never_raises (updateOpenGraphMeta c).
Proof.
  apply never_raises_try_catch. intros e. apply never_raises_modify.
Qed.

Lemma updateCertificateDisplay_never_raises (h : Host) (c : Certificate) :
  never_raises (updateCertificateDisplay h c).
Proof.
  apply never_raises_try_catch. intros e.
  apply never_raises_bind; [apply never_raises_modify|].
  intros _. apply never_raises_modify.
Qed.

(** [updateCertificateDisplay] writes text, the title, the metadata and
    the console, and may show the error region; it leaves every
    observation alone that these leave alone. *)
Lemma updateCertificateDisplay_keeps {B : Type} (f : World -> B) (h : Host)
  (c : Certificate) :
  (forall t w, f (set_textContent t w) = f w) ->
  (forall t w, f (set_title t w) = f w) ->
  (forall t w, f (set_meta t w) = f w) ->
  (forall t w, f (set_console t w) = f w) ->
  (forall w, f (showError w) = f w) ->
  keeps f (updateCertificateDisplay h c).
Proof.
  intros Ht Hti Hm Hc He.
  unfold updateCertificateDisplay, write_text, updateOpenGraphMeta,
    console_error.
  keeps_tac; first [apply Ht | apply Hti | apply Hm | apply Hc | apply He].
Qed.

(** What the continuation and the handler leave alone is decided by the
    first part of a computation. *)
Lemma observe_bind {A B C : Type} (f : World -> C) (m : M A) (k : A -> M B)
  (w : World) :
  (forall a, keeps f (k a)) -> f (exec (m ≫= k) w) = f (exec m w).
Proof.
  intros Hk. unfold exec, mbind, M_bind.
  destruct (m w) as [[a|e] w']; simpl; [apply Hk|done].
Qed.

Lemma observe_try_catch {A C : Type} (f : World -> C) (body : M A)
  (handler : string -> M A) (w : World) :
  (forall e, keeps f (handler e)) ->
  f (exec (try_catch body handler) w) = f (exec body w).
Proof.
  intros Hh. unfold exec, try_catch.
  destruct (body w) as [[a|e] w']; simpl; [done|apply Hh].
Qed.

Lemma run_normal {A : Type} (m : M A) (w : World) (a : A) :
  result m w = Normal a -> m w = (Normal a, exec m w).
Proof. unfold result, exec. destruct (m w) as [c w']. simpl. by intros ->. Qed.

(** ** The matcher as a total function *)

Lemma validateCertificate_returns (h : Host) (id key : Value) (w : World) :
  result (validateCertificate h id key) w = Normal (lookup_certificate h id key).
Proof.
  unfold lookup_certificate.
  destruct (fetched h) as [|[[certs|]]] eqn:Hf.
  - unfold result, validateCertificate, try_catch, fetchCertificates, try_catch,
      mbind, M_bind, emit, modify. rewrite Hf. reflexivity.
  - case_bool_decide as Ht.
    + destruct Ht as [Hid Hkey]. unfold result.
      by rewrite (validateCertificate_run h w certs id key Hf Hid Hkey).
    + unfold result, validateCertificate, try_catch, fetchCertificates,
        try_catch, mbind, M_bind, emit, modify. rewrite Hf. simpl.
      destruct (decide (is_text id)) as [Hid|Hid].
      * rewrite (or_empty_text id Hid). simpl.
        destruct key; try (exfalso; apply Ht; by split). reflexivity.
      * destruct id; try (exfalso; by apply Hid). reflexivity.
  - unfold result, validateCertificate, try_catch, fetchCertificates, try_catch,
      mbind, M_bind, emit, modify. rewrite Hf. simpl.
    destruct (str_trim (or_empty id) _) as [[s|e] w1]; [|done].
    destruct (str_trim (or_empty key) _) as [[s'|e] w2]; done.
Qed.

Lemma str_trim_keeps {B : Type} (f : World -> B) (v : Value) :
  keeps f (str_trim v).
Proof. by destruct v. Qed.

Lemma array_find_keeps {A B : Type} (f : World -> B) (callback : A -> M bool)
  (l : list A) :
  (forall x, keeps f (callback x)) -> keeps f (array_find callback l).
Proof.
  intros Hcb. induction l as [|x l IH]; cbn [array_find]; [apply keeps_ret|].
  apply keeps_bind; [apply Hcb|]. intros [|]; [apply keeps_ret|apply IH].
Qed.

Lemma matches_keeps {B : Type} (f : World -> B) (nid nkey : jsstring)
  (c : Certificate) :
  keeps f (matches nid nkey c).
Proof.
  unfold matches.
  apply keeps_bind; [apply str_trim_keeps|]. intros a.
  apply keeps_bind; [apply str_trim_keeps|]. intros b. apply keeps_ret.
Qed.

(** [validateCertificate] touches the trace and the console only. *)
Lemma validateCertificate_keeps {B : Type} (f : World -> B) (h : Host)
  (id key : Value) :
  (forall t w, f (set_trace t w) = f w) ->
  (forall t w, f (set_console t w) = f w) ->
  keeps f (validateCertificate h id key).
Proof.
  intros Ht Hc.
  unfold validateCertificate, fetchCertificates, console_error, emit.
  apply keeps_try_catch; [|intros e; keeps_tac; apply Hc].
  apply keeps_bind; [keeps_tac; first [apply Ht|apply Hc]|]. intros data.
  apply keeps_bind; [apply str_trim_keeps|]. intros nid.
  apply keeps_bind; [apply str_trim_keeps|]. intros nkey.
  apply keeps_bind; [keeps_tac|]. intros certs.
  apply array_find_keeps. intros c. apply matches_keeps.
Qed.

Lemma validateCertificate_trace (h : Host) (id key : Value) (w : World) :
  trace (exec (validateCertificate h id key) w)
  = trace w ++ [EvFetch "certificates.json"].
Proof.
  unfold validateCertificate.
  rewrite observe_try_catch by (intros e; unfold console_error; keeps_tac).
  rewrite observe_bind.
  2:{ intros data.
      apply keeps_bind; [apply str_trim_keeps|]. intros nid.
      apply keeps_bind; [apply str_trim_keeps|]. intros nkey.
      apply keeps_bind; [keeps_tac|]. intros certs.
      apply array_find_keeps. intros c. apply matches_keeps. }
  unfold fetchCertificates.
  rewrite observe_try_catch by (intros e; unfold console_error; keeps_tac).
  rewrite observe_bind by (intros []; keeps_tac).
  reflexivity.
Qed.

(** X4: on arguments that are strings, [null] or [undefined],
    [validateCertificate] never rejects.  It resolves to the first exact
    match of the loaded collection, and to nothing when the collection
    fails to load or has no [certificates] array; the call performs
    exactly one fetch and changes nothing of what the page displays. *)
Theorem validateCertificate_total (h : Host) (id key : Value) (w : World) :
  is_text id -> is_text key ->
  result (validateCertificate h id key) w = Normal (lookup_certificate h id key)
  /\ (fetched h = FetchFailed ->
      result (validateCertificate h id key) w = Normal None)
  /\ (forall data, fetched h = FetchOk data -> certificates data = None ->
      result (validateCertificate h id key) w = Normal None)
  /\ (forall certs, fetched h = FetchOk (mkData (Some certs)) ->
      result (validateCertificate h id key) w
      = Normal (snd <$> list_find
                  (exact_match (trim (text_of id)) (trim (text_of key))) certs))
  /\ trace (exec (validateCertificate h id key) w)
     = trace w ++ [EvFetch "certificates.json"]
  /\ (loadingState (exec (validateCertificate h id key) w),
      errorState (exec (validateCertificate h id key) w),
      certificateState (exec (validateCertificate h id key) w))
     = (loadingState w, errorState w, certificateState w).
Proof.
  intros Hid Hkey.
  rewrite validateCertificate_returns. unfold lookup_certificate.
  split; [done|]. split; [by intros ->|]. split; [|split; [|split]].
  - intros [certs] -> Hc. simpl in Hc. by rewrite Hc.
  - intros certs ->. by rewrite bool_decide_eq_true_2.
  - apply validateCertificate_trace.
  - apply (validateCertificate_keeps
             (fun w => (loadingState w, errorState w, certificateState w)));
      reflexivity.
Qed.

Lemma validateCertificate_total_witness :
  result (validateCertificate
            (mkHost [] FetchFailed 1400 900 (fun s => s) no_fault no_fault)
            (VString (js "PTSC2025-0001")) (VString (js "AAAAAAAAAA"))) page
  = Normal None
  /\ trace (exec (validateCertificate (host [] [jane] no_fault no_fault)
                    VNull (VString (js "AAAAAAAAAA"))) page)
     = trace page ++ [EvFetch "certificates.json"].
Proof.
  split.
  - exact (proj1 (proj2 (validateCertificate_total
             (mkHost [] FetchFailed 1400 900 (fun s => s) no_fault no_fault)
             (VString (js "PTSC2025-0001")) (VString (js "AAAAAAAAAA")) page
             I I))
             eq_refl).
  - exact (proj1 (proj2 (proj2 (proj2 (proj2 (validateCertificate_total
             (host [] [jane] no_fault no_fault)
             VNull (VString (js "AAAAAAAAAA")) page I I)))))).
Defined.

(** ** The verification flow *)

Lemma try_catch_normal {A : Type} (body : M A) (handler : string -> M A)
  (w : World) (a : A) :
  result body w = Normal a -> try_catch body handler w = body w.
Proof.
  unfold result, try_catch. destruct (body w) as [[a'|e] w']; [done|].
  simpl. discriminate.
Qed.

Lemma showCertificate_run (h : Host) (w : World) :
  showCertificate h w =
    (Normal (),
     let hidden :=
       set_errorState (style_set "none" (errorState w))
         (set_loadingState (style_set "none" (loadingState w)) w) in
     match certificateState w with
     | Some _ =>
         applyResponsiveScale h
           (enableClientProtection
              (set_certificateState (Some "block") hidden))
     | None => hidden
     end).
Proof.
  unfold showCertificate, mbind, M_bind, modify, gets, try_catch. simpl.
  by destruct (certificateState w).
Qed.

Lemma applyResponsiveScale_regions (h : Host) (w : World) :
  loadingState (applyResponsiveScale h w) = loadingState w
  /\ errorState (applyResponsiveScale h w) = errorState w
  /\ certificateState (applyResponsiveScale h w) = certificateState w
  /\ trace (applyResponsiveScale h w) = trace w.
Proof.
  unfold applyResponsiveScale. destruct (container w); [|done]. simpl.
  by destruct (wrapper w).
Qed.

Lemma showCertificate_regions (h : Host) (w : World) :
  loadingState (exec (showCertificate h) w) = style_set "none" (loadingState w)
  /\ errorState (exec (showCertificate h) w) = style_set "none" (errorState w)
  /\ certificateState (exec (showCertificate h) w)
     = style_set "block" (certificateState w)
  /\ trace (exec (showCertificate h) w) = trace w.
Proof.
  unfold exec. rewrite showCertificate_run. simpl.
  destruct (certificateState w) as [d|] eqn:Hc; simpl; [|by rewrite Hc].
  destruct (applyResponsiveScale_regions h
    (enableClientProtection
       (set_certificateState (Some "block")
          (set_errorState (style_set "none" (errorState w))
             (set_loadingState (style_set "none" (loadingState w)) w)))))
    as (-> & -> & -> & ->).
  destruct (enableClientProtection_frame
    (set_certificateState (Some "block")
       (set_errorState (style_set "none" (errorState w))
          (set_loadingState (style_set "none" (loadingState w)) w))))
    as (_ & _ & _ & -> & -> & -> & ->).
  done.
Qed.

Lemma style_set_present (v : string) (a b : option string) :
  bool_decide (is_Some a) = bool_decide (is_Some b) ->
  style_set v a = style_set v b.
Proof.
  destruct a, b; simpl; done.
Qed.

Lemma in_state_of_regions (st : DisplayState) (w w0 : World) :
  loadingState w
    = style_set (display_of (if st is LOADING then true else false))
        (loadingState w0) ->
  errorState w
    = style_set (display_of (if st is ERROR then true else false))
        (errorState w0) ->
  certificateState w
    = style_set (display_of (if st is CERTIFICATE then true else false))
        (certificateState w0) ->
  in_state st w.
Proof.
  intros Hl He Hc. unfold in_state. rewrite Hl, He, Hc.
  by destruct (loadingState w0), (errorState w0), (certificateState w0).
Qed.

(** The run of [verifyCertificate] once both parameters are present. *)
Lemma verifyCertificate_run_present (h : Host) (w : World) :
  truthy (get (parseURLParams h) (js "id")) = true ->
  truthy (get (parseURLParams h) (js "key")) = true ->
  verifyCertificate h w =
    let searching :=
      exec (validateCertificate h (get (parseURLParams h) (js "id"))
              (get (parseURLParams h) (js "key")))
        (set_trace (trace (showLoading w) ++ [EvDelay 1000]) (showLoading w)) in
    match lookup_certificate h (get (parseURLParams h) (js "id"))
            (get (parseURLParams h) (js "key")) with
    | Some c => showCertificate h (exec (updateCertificateDisplay h c) searching)
    | None => (Normal (), showError searching)
    end.
Proof.
  intros Hid Hkey. unfold verifyCertificate. cbv zeta. rewrite Hid, Hkey.
  cbn [negb orb].
  set (idv := get (parseURLParams h) (js "id")).
  set (keyv := get (parseURLParams h) (js "key")).
  unfold mbind at 1, M_bind at 1, modify at 1.
  set (w1 := showLoading w).
  set (w2 := set_trace (trace w1 ++ [EvDelay 1000]) w1).
  assert (forall (handler : string -> M ()),
            try_catch
              (emit (EvDelay 1000);;
               certificate ← validateCertificate h idv keyv;
               match certificate with
               | Some certificate =>
                   updateCertificateDisplay h certificate;; showCertificate h
               | None => modify showError
               end) handler w1
            = match lookup_certificate h idv keyv with
              | Some c =>
                  showCertificate h
                    (exec (updateCertificateDisplay h c)
                       (exec (validateCertificate h idv keyv) w2))
              | None =>
                  (Normal (), showError (exec (validateCertificate h idv keyv) w2))
              end) as Hbody.
  { intros handler.
    pose proof (run_normal _ _ _ (validateCertificate_returns h idv keyv w2))
      as Hv.
    assert ((emit (EvDelay 1000);;
             certificate ← validateCertificate h idv keyv;
             match certificate with
             | Some certificate =>
                 updateCertificateDisplay h certificate;; showCertificate h
             | None => modify showError
             end) w1
            = match lookup_certificate h idv keyv with
              | Some c =>
                  showCertificate h
                    (exec (updateCertificateDisplay h c)
                       (exec (validateCertificate h idv keyv) w2))
              | None =>
                  (Normal (),
                   showError (exec (validateCertificate h idv keyv) w2))
              end) as Hrun.
    { unfold mbind at 1, M_bind at 1, emit, modify at 1. fold w2.
      unfold mbind at 1, M_bind at 1. rewrite Hv.
      destruct (lookup_certificate h idv keyv) as [c|]; [|reflexivity].
      unfold mbind, M_bind.
      destruct (updateCertificateDisplay_never_raises h c
                  (exec (validateCertificate h idv keyv) w2)) as [[] Hu].
      by rewrite (run_normal _ _ _ Hu). }
    rewrite (try_catch_normal _ handler w1 ()); [exact Hrun|].
    unfold result. rewrite Hrun.
    destruct (lookup_certificate h idv keyv); [|done].
    by rewrite showCertificate_run. }
  apply Hbody.
Qed.

Lemma verifyCertificate_run_missing (h : Host) (w : World) :
  negb (truthy (get (parseURLParams h) (js "id")))
  || negb (truthy (get (parseURLParams h) (js "key"))) = true ->
  verifyCertificate h w =
    (Normal (),
     showError
       (set_console
          (console (showLoading w) ++ ["Missing required parameters: id and key"])
          (showLoading w))).
Proof.
  intros Hc. unfold verifyCertificate. cbv zeta. rewrite Hc. reflexivity.
Qed.

Lemma regions_present_style (v : string) (a b : World) :
  regions_present a = regions_present b ->
  style_set v (loadingState a) = style_set v (loadingState b)
  /\ style_set v (errorState a) = style_set v (errorState b)
  /\ style_set v (certificateState a) = style_set v (certificateState b).
Proof.
  unfold regions_present. intros [= Hl He Hc].
  repeat split; by apply style_set_present.
Qed.

Lemma style_set_twice (v v' : string) (el : option string) :
  style_set v (style_set v' el) = style_set v el.
Proof. by destruct el. Qed.

(** The world in which the lookup of [verifyCertificate] ends has the view
    regions of the loading state. *)
Lemma searching_regions (h : Host) (id key : Value) (w : World) :
  let searching :=
    exec (validateCertificate h id key)
      (set_trace (trace (showLoading w) ++ [EvDelay 1000]) (showLoading w)) in
  loadingState searching = style_set "block" (loadingState w)
  /\ errorState searching = style_set "none" (errorState w)
  /\ certificateState searching = style_set "none" (certificateState w).
Proof.
  intros searching.
  pose proof (validateCertificate_keeps
    (fun w => (loadingState w, errorState w, certificateState w)) h id key
    (fun _ _ => eq_refl) (fun _ _ => eq_refl)
    (set_trace (trace (showLoading w) ++ [EvDelay 1000]) (showLoading w)))
    as Hk.
  fold searching in Hk. simpl in Hk. by injection Hk as -> -> ->.
Qed.

(** X5: [verifyCertificate] never rejects, and the display state it ends
    in is decided by the parameters and the lookup alone: CERTIFICATE
    when both parameters are present and a record matches (whether or not
    populating the fields raised), ERROR in every other case; it never
    ends in LOADING. *)
Theorem verifyCertificate_outcome (h : Host) (w : World) :
  result (verifyCertificate h) w = Normal ()
  /\ (truthy (get (parseURLParams h) (js "id")) = true ->
      truthy (get (parseURLParams h) (js "key")) = true ->
      is_Some (lookup_certificate h (get (parseURLParams h) (js "id"))
                 (get (parseURLParams h) (js "key"))) ->
      in_state CERTIFICATE (exec (verifyCertificate h) w)
      /\ certificateState (exec (verifyCertificate h) w)
         = style_set "block" (certificateState w))
  /\ (~ (truthy (get (parseURLParams h) (js "id")) = true
         /\ truthy (get (parseURLParams h) (js "key")) = true
         /\ is_Some (lookup_certificate h (get (parseURLParams h) (js "id"))
                       (get (parseURLParams h) (js "key")))) ->
      in_state ERROR (exec (verifyCertificate h) w)
      /\ errorState (exec (verifyCertificate h) w)
         = style_set "block" (errorState w)).
Proof.
  set (idv := get (parseURLParams h) (js "id")).
  set (keyv := get (parseURLParams h) (js "key")).
  destruct (searching_regions h idv keyv w) as (Sl & Se & Sc).
  destruct (truthy idv) eqn:Hid; [destruct (truthy keyv) eqn:Hkey|].
  - (* both parameters present *)
    pose proof (verifyCertificate_run_present h w Hid Hkey) as Hrun.
    cbv zeta in Hrun. fold idv keyv in Hrun.
    set (searching := exec (validateCertificate h idv keyv)
                        (set_trace (trace (showLoading w) ++ [EvDelay 1000])
                           (showLoading w))) in *.
    destruct (lookup_certificate h idv keyv) as [c|] eqn:Hl.
    + assert (exec (verifyCertificate h) w
              = exec (showCertificate h)
                  (exec (updateCertificateDisplay h c) searching)) as ->
        by (unfold exec at 1; by rewrite Hrun).
      assert (result (verifyCertificate h) w = Normal ()) as ->
        by (unfold result; by rewrite Hrun, showCertificate_run).
      split; [done|]. split.
      * intros _ _ _.
        destruct (showCertificate_regions h
                    (exec (updateCertificateDisplay h c) searching))
          as (Rl & Re & Rc & _).
        pose proof (updateCertificateDisplay_keeps regions_present h c
                      (fun _ _ => eq_refl) (fun _ _ => eq_refl)
                      (fun _ _ => eq_refl) (fun _ _ => eq_refl)
                      regions_present_showError searching) as Hk.
        destruct (regions_present_style "none" _ _ Hk) as (Pl & Pe & _).
        destruct (regions_present_style "block" _ _ Hk) as (_ & _ & Pc).
        rewrite Pl in Rl. rewrite Pe in Re. rewrite Pc in Rc.
        rewrite Sl, style_set_twice in Rl. rewrite Se, style_set_twice in Re.
        rewrite Sc, style_set_twice in Rc.
        split; [by apply (in_state_of_regions CERTIFICATE _ w)|done].
      * intros Hno. exfalso. apply Hno. by repeat split.
    + assert (exec (verifyCertificate h) w = showError searching) as ->
        by (unfold exec; by rewrite Hrun).
      assert (result (verifyCertificate h) w = Normal ()) as ->
        by (unfold result; by rewrite Hrun).
      split; [done|]. split; [by intros _ _ [? ?]|]. intros _.
      split.
      * apply (in_state_of_regions ERROR _ w); unfold showError; simpl.
        -- by rewrite Sl, style_set_twice.
        -- by rewrite Se, style_set_twice.
        -- by rewrite Sc, style_set_twice.
      * unfold showError. simpl. by rewrite Se, style_set_twice.
  - (* no key *)
    unfold idv, keyv in *.
    unfold result, exec. rewrite verifyCertificate_run_missing
      by by rewrite Hid, Hkey.
    split; [done|]. split; [done|]. intros _.
    split; [apply showError_in_state|]. simpl. by destruct (errorState w).
  - (* no id *)
    unfold idv, keyv in *.
    unfold result, exec. rewrite verifyCertificate_run_missing
      by by rewrite Hid.
    split; [done|]. split; [done|]. intros _.
    split; [apply showError_in_state|]. simpl. by destruct (errorState w).
Qed.

(** X6: a run of [verifyCertificate] with both parameters present waits
    once and then fetches the collection exactly once, whatever the
    outcome: there is no retry and no second fetch. *)
Theorem verifyCertificate_fetches_once (h : Host) (w : World) :
  truthy (get (parseURLParams h) (js "id")) = true ->
  truthy (get (parseURLParams h) (js "key")) = true ->
  trace (exec (verifyCertificate h) w)
  = trace w ++ [EvDelay 1000; EvFetch "certificates.json"].
Proof.
  intros Hid Hkey. unfold exec at 1.
  rewrite (verifyCertificate_run_present h w Hid Hkey). cbv zeta.
  set (idv := get (parseURLParams h) (js "id")).
  set (keyv := get (parseURLParams h) (js "key")).
  assert (trace (exec (validateCertificate h idv keyv)
                   (set_trace (trace (showLoading w) ++ [EvDelay 1000])
                      (showLoading w)))
          = trace w ++ [EvDelay 1000; EvFetch "certificates.json"]) as Ht.
  { rewrite validateCertificate_trace. simpl. by rewrite <- app_assoc. }
  destruct (lookup_certificate h idv keyv) as [c|].
  - destruct (showCertificate_regions h
                (exec (updateCertificateDisplay h c)
                   (exec (validateCertificate h idv keyv)
                      (set_trace (trace (showLoading w) ++ [EvDelay 1000])
                         (showLoading w))))) as (_ & _ & _ & Rt).
    unfold exec at 1 in Rt. rewrite Rt.
    rewrite (updateCertificateDisplay_keeps trace h c
               (fun _ _ => eq_refl) (fun _ _ => eq_refl)
               (fun _ _ => eq_refl) (fun _ _ => eq_refl)
               (fun _ => eq_refl)).
    exact Ht.
  - simpl. exact Ht.
Qed.

Lemma verifyCertificate_fetches_once_witness :
  trace (exec (verifyCertificate
                 (host [(js "id", js "PTSC2025-0009"); (js "key", js "ZZZZZZZZZZ")]
                    [jane] no_fault no_fault)) page)
  = trace page ++ [EvDelay 1000; EvFetch "certificates.json"].
Proof.
  exact (verifyCertificate_fetches_once
           (host [(js "id", js "PTSC2025-0009"); (js "key", js "ZZZZZZZZZZ")]
              [jane] no_fault no_fault) page eq_refl eq_refl).
Defined.

Lemma verifyCertificate_outcome_witness :
  in_state CERTIFICATE
    (exec (verifyCertificate
             (host [(js "id", js "PTSC2025-0001"); (js "key", js "AAAAAAAAAA")]
                [john; jane] name_write_raises no_fault)) page)
  /\ in_state ERROR
       (exec (verifyCertificate
                (host [(js "id", js "PTSC2025-0001"); (js "key", js "aaaaaaaaaa")]
                   [john; jane] no_fault no_fault)) page).
Proof.
  split.
  - refine (proj1 (proj1 (proj2 (verifyCertificate_outcome
              (host [(js "id", js "PTSC2025-0001"); (js "key", js "AAAAAAAAAA")]
                 [john; jane] name_write_raises no_fault) page))
              eq_refl eq_refl _)).
    exists jane. vm_compute. reflexivity.
  - refine (proj1 (proj2 (proj2 (verifyCertificate_outcome
              (host [(js "id", js "PTSC2025-0001"); (js "key", js "aaaaaaaaaa")]
                 [john; jane] no_fault no_fault) page)) _)).
    intros (_ & _ & [c Hc]). vm_compute in Hc. discriminate Hc.
Defined.

(** ** Populating the certificate *)

Lemma write_text_clean (h : Host) (step : RenderStep) (el : string)
  (value : option jsstring) (render : jsstring -> jsstring) (w : World) :
  render_raises h step = false ->
  write_text h step el value render w = (Normal (), written el value render w).
Proof.
  intros Hr. unfold write_text, written, mbind, M_bind, gets, guard_raise.
  rewrite Hr.
  by destruct (bool_decide (is_Some (textContent w !! el)) && truthy (field value)).
Qed.

Lemma written_lookup (el : string) (value : option jsstring)
  (render : jsstring -> jsstring) (w : World) (el' : string) :
  textContent (written el value render w) !! el'
  = if decide (el' = el)
    then shown_text value render <$> textContent w !! el
    else textContent w !! el'.
Proof.
  unfold written, shown_text.
  destruct (textContent w !! el) as [old|] eqn:Hold; simpl.
  - destruct (truthy (field value)); simpl.
    + case_decide as Hd; [subst; by rewrite lookup_insert_eq|].
      by rewrite lookup_insert_ne.
    + case_decide as Hd; [by subst|done].
  - case_decide as Hd; [by subst|done].
Qed.

Lemma written_frame (el : string) (value : option jsstring)
  (render : jsstring -> jsstring) (w : World) :
  title (written el value render w) = title w
  /\ console (written el value render w) = console w
  /\ meta (written el value render w) = meta w
  /\ loadingState (written el value render w) = loadingState w
  /\ errorState (written el value render w) = errorState w
  /\ certificateState (written el value render w) = certificateState w.
Proof. unfold written. by destruct (_ && _). Qed.

Lemma updateOpenGraphMeta_run (c : Certificate) (w : World) :
  updateOpenGraphMeta c w =
    (Normal (),
     set_meta
       (<["og:description" :=
            interpolate (cert_name c) ++ js " has successfully completed " ++
            interpolate (cert_event c) ++
            js " at Programming and Tech Skill Club, KNIT Sultanpur."]>
          (<["og:title" :=
               interpolate (cert_name c) ++ js " - " ++
               interpolate (cert_type c) ++ js " - PTSC KNIT"]> (meta w))) w).
Proof. reflexivity. Qed.

(** The run of [updateCertificateDisplay] when no statement raises. *)
Lemma updateCertificateDisplay_clean (h : Host) (c : Certificate) (w : World) :
  renders_cleanly h ->
  exists w7 : World,
    w7 = foldl (fun w '(el, value, render) => written el value render w) w
           (display_fields h c)
    /\ updateCertificateDisplay h c w =
         updateOpenGraphMeta c
           (if truthy (field (cert_name c))
            then set_title (js "Certificate - " ++ default [] (cert_name c)
                            ++ js " - PTSC KNIT") w7
            else w7).
Proof.
  intros Hr. eexists. split; [reflexivity|].
  unfold updateCertificateDisplay, try_catch, mbind, M_bind.
  do 7 (rewrite write_text_clean by apply Hr; cbv beta iota).
  unfold guard_raise. rewrite (Hr WriteTitle).
  cbn [foldl display_fields]. unfold mret, M_ret, modify.
  destruct (truthy (field (cert_name c))); cbv beta iota;
    rewrite updateOpenGraphMeta_run; cbv beta iota; reflexivity.
Qed.

Ltac written_step :=
  rewrite written_lookup;
  first [ rewrite decide_True by reflexivity
        | rewrite decide_False by (first [discriminate | assumption]) ].

(** X7: when no statement raises, [updateCertificateDisplay] writes every
    field the record has into its element, rendered ([sanitizeText], or
    [formatDate] for the two date elements, which show the same date);
    an element keeps its text when the record lacks the field, no element
    is created, and no other element changes.  The title is set from the
    name when there is one, nothing is logged, and the view regions stay
    as they are. *)
Theorem updateCertificateDisplay_populates
  (h : Host) (c : Certificate) (w : World) :
  renders_cleanly h ->
  result (updateCertificateDisplay h c) w = Normal ()
  /\ Forall (fun '(el, value, render) =>
               textContent (exec (updateCertificateDisplay h c) w) !! el
               = shown_text value render <$> textContent w !! el)
       (display_fields h c)
  /\ (forall el : string,
        el ∉ (fun f => f.1.1) <$> display_fields h c ->
        textContent (exec (updateCertificateDisplay h c) w) !! el
        = textContent w !! el)
  /\ title (exec (updateCertificateDisplay h c) w)
     = (if truthy (field (cert_name c))
        then js "Certificate - " ++ default [] (cert_name c) ++ js " - PTSC KNIT"
        else title w)
  /\ console (exec (updateCertificateDisplay h c) w) = console w
  /\ (loadingState (exec (updateCertificateDisplay h c) w),
      errorState (exec (updateCertificateDisplay h c) w),
      certificateState (exec (updateCertificateDisplay h c) w))
     = (loadingState w, errorState w, certificateState w).
Proof.
  intros Hr.
  destruct (updateCertificateDisplay_clean h c w Hr) as (w7 & Hw7 & Hrun).
  cbn [foldl display_fields] in Hw7.
  assert (forall B (f : World -> B),
            (forall t v, f (set_title t v) = f v) ->
            (forall t v, f (set_meta t v) = f v) ->
            f (exec (updateCertificateDisplay h c) w) = f w7) as Hobs.
  { intros B f Ht Hm. unfold exec. rewrite Hrun, updateOpenGraphMeta_run.
    cbn [snd]. rewrite Hm. by destruct (truthy (field (cert_name c))). }
  split; [unfold result; by rewrite Hrun, updateOpenGraphMeta_run|].
  rewrite (Hobs _ (fun v => textContent v)) by reflexivity.
  rewrite (Hobs _ (fun v => console v)) by reflexivity.
  rewrite (Hobs _ (fun v => (loadingState v, errorState v, certificateState v)))
    by reflexivity.
  split; [|split; [|split; [|split]]].
  - subst w7. cbn [display_fields].
    repeat (apply Forall_cons; split); [..|apply Forall_nil];
      repeat written_step; reflexivity.
  - intros el Hel. cbn [display_fields fmap list_fmap fst] in Hel.
    repeat (apply not_elem_of_cons in Hel as [? Hel]).
    subst w7. repeat written_step. reflexivity.
  - unfold exec. rewrite Hrun, updateOpenGraphMeta_run. cbn [snd].
    destruct (truthy (field (cert_name c))); [reflexivity|].
    cbn [title set_meta]. subst w7.
    repeat match goal with
           | |- context [written ?el ?v ?r ?x] =>
               rewrite (proj1 (written_frame el v r x))
           end.
    reflexivity.
  - subst w7.
    repeat match goal with
           | |- context [written ?el ?v ?r ?x] =>
               rewrite (proj1 (proj2 (written_frame el v r x)))
           end.
    reflexivity.
  - subst w7.
    repeat match goal with
           | |- context [loadingState (written ?el ?v ?r ?x)] =>
               destruct (written_frame el v r x) as (_ & _ & _ & -> & -> & ->)
           end.
    reflexivity.
Qed.

Lemma updateCertificateDisplay_populates_witness :
  textContent
    (exec (updateCertificateDisplay (host [] [] no_fault no_fault) jane) page)
    !! "recipientName"
  = Some (js "Jane Doe").
Proof.
  assert (renders_cleanly (host [] [] no_fault no_fault)) as Hr
    by (intros step; reflexivity).
  pose proof (proj1 (proj2 (updateCertificateDisplay_populates
                (host [] [] no_fault no_fault) jane page Hr))) as Hall.
  apply Forall_inv_tail, Forall_inv in Hall. rewrite Hall. reflexivity.
Defined.




(** ** Text sanitising *)

Lemma escape_char_plain (c : N) : html_special c = false -> escape_char c = [c].
Proof.
  unfold html_special, escape_char. intros Hs.
  apply bool_decide_eq_false_1 in Hs.
  repeat match goal with
         | |- context [(c =? ?k)%N] =>
             destruct (N.eqb_spec c k) as [->|_];
             [exfalso; apply Hs; set_solver|]
         end.
  reflexivity.
Qed.

Lemma escape_char_special (c : N) :
  html_special c = true -> (4 <= List.length (escape_char c))%nat.
Proof.
  unfold html_special. intros Hs. apply bool_decide_eq_true_1 in Hs.
  repeat (apply elem_of_cons in Hs as [->|Hs]; [simpl; lia|]).
  by apply elem_of_nil in Hs.
Qed.

Lemma escape_char_output (c : N) :
  Forall (fun x => x <> 60 /\ x <> 62 /\ x <> 160)%N (escape_char c).
Proof.
  unfold escape_char.
  repeat match goal with
         | |- context [(c =? ?k)%N] =>
             destruct (N.eqb_spec c k) as [->|?];
             [repeat constructor; discriminate|]
         end.
  repeat constructor; done.
Qed.

Lemma sanitizeText_cons (c : N) (s : jsstring) :
  sanitizeText (c :: s) = escape_char c ++ sanitizeText s.
Proof. reflexivity. Qed.

Lemma sanitizeText_length (s : jsstring) :
  (List.length s <= List.length (sanitizeText s))%nat
  /\ (List.length (sanitizeText s) = List.length s ->
      Forall (fun c => html_special c = false) s).
Proof.
  induction s as [|c s [IHle IHeq]]; [by split|].
  rewrite sanitizeText_cons, length_app. cbn [List.length].
  destruct (html_special c) eqn:Hc.
  - pose proof (escape_char_special c Hc). split; lia.
  - rewrite (escape_char_plain c Hc). cbn [List.length]. split; [lia|].
    intros Hl. constructor; [done|]. apply IHeq. lia.
Qed.

(** X9: the text [sanitizeText] returns holds no angle bracket and no
    non-breaking space; it is never shorter than its input, and it is the
    input itself exactly when the input has none of the characters
    [&], [<], [>] and the non-breaking space. *)
Theorem sanitizeText_escapes (s : jsstring) :
  Forall (fun x => x <> 60 /\ x <> 62 /\ x <> 160)%N (sanitizeText s)
  /\ (List.length s <= List.length (sanitizeText s))%nat
  /\ (sanitizeText s = s <-> Forall (fun c => html_special c = false) s).
Proof.
  split; [|split].
  - induction s as [|c s IH]; [constructor|].
    rewrite sanitizeText_cons. apply Forall_app. split; [|done].
    apply escape_char_output.
  - apply sanitizeText_length.
  - split.
    + intros He. apply sanitizeText_length. by rewrite He.
    + induction 1 as [|c r Hc _ IH]; [done|].
      by rewrite sanitizeText_cons, (escape_char_plain c Hc), IH.
Qed.

(** ** View switching *)

(** X10: of two successive calls of [showLoading] and [showError] the
    later one alone decides the page, so each is idempotent; after
    [showLoading] the page is in the LOADING state and after [showError]
    in the ERROR state. *)
Theorem show_last_call_wins (w : World) :
  showError (showLoading w) = showError w
  /\ showLoading (showError w) = showLoading w
  /\ showError (showError w) = showError w
  /\ showLoading (showLoading w) = showLoading w
  /\ in_state LOADING (showLoading w)
  /\ in_state ERROR (showError w).
Proof.
  destruct w as [l e c ? ? ? ? ? ? ? ? ? ? ? ? ? ? ?].
  unfold showError, showLoading, in_state. simpl.
  destruct l, e, c; simpl; done.
Qed.

(** X11: [showCertificate] on a page without the certificate region only
    hides the other two regions: no handler is installed and nothing is
    scaled.  On a page with the region it ends in the CERTIFICATE state
    with the deterrent handlers installed, and scales the container when
    there is one. *)
Theorem showCertificate_effects (h : Host) (w : World) :
  result (showCertificate h) w = Normal ()
  /\ in_state CERTIFICATE (exec (showCertificate h) w)
  /\ (certificateState w = None ->
      exec (showCertificate h) w
      = set_errorState (style_set "none" (errorState w))
          (set_loadingState (style_set "none" (loadingState w)) w))
  /\ (is_Some (certificateState w) ->
      certificateState (exec (showCertificate h) w) = Some "block"
      /\ is_Some (_protectionHandlers (exec (showCertificate h) w))
      /\ (is_Some (container w) ->
          container (exec (showCertificate h) w)
          = Some (Some (responsive_scale (innerWidth h) (innerHeight h))))).
Proof.
  destruct (showCertificate_regions h w) as (Rl & Re & Rc & _).
  split; [unfold result; by rewrite showCertificate_run|].
  split; [by apply (in_state_of_regions CERTIFICATE _ w)|].
  split.
  - intros Hc. unfold exec. rewrite showCertificate_run. simpl. by rewrite Hc.
  - intros [d Hd]. rewrite Rc, Hd. split; [done|].
    unfold exec. rewrite showCertificate_run. simpl. rewrite Hd.
    set (shown := set_certificateState _ _).
    pose proof (enableClientProtection_sets_flag shown) as Hflag.
    assert (container (enableClientProtection shown) = container w) as Hcont.
    { unfold enableClientProtection, addEventListener.
      destruct (_protectionHandlers shown); [done|].
      repeat (case_bool_decide; simpl); done. }
    split.
    + unfold applyResponsiveScale.
      destruct (container (enableClientProtection shown)); [|done]. simpl.
      by destruct (wrapper (enableClientProtection shown)).
    + intros [q Hq]. unfold applyResponsiveScale. rewrite Hcont, Hq. simpl.
      by destruct (wrapper (enableClientProtection shown)).
Qed.

Lemma showCertificate_effects_witness :
  certificateState (exec (showCertificate (host [] [] no_fault no_fault)) page)
  = Some "block"
  /\ exec (showCertificate (host [] [] no_fault no_fault))
       (set_certificateState None page)
     = set_errorState (Some "none")
         (set_loadingState (Some "none") (set_certificateState None page)).
Proof.
  split.
  - exact (proj1 (proj2 (proj2 (proj2 (showCertificate_effects
             (host [] [] no_fault no_fault) page)))
             (ex_intro _ "none" eq_refl))).
  - exact (proj1 (proj2 (proj2 (showCertificate_effects
             (host [] [] no_fault no_fault)
             (set_certificateState None page)))) eq_refl).
Defined.

(** ** Deterrent handlers: round trip *)

Lemma enableClientProtection_fresh_pair (w : World) :
  _protectionHandlers w = None ->
  _protectionHandlers (enableClientProtection w)
  = Some (next_closure w, S (next_closure w)).
Proof.
  intros Hp. unfold enableClientProtection, addEventListener. rewrite Hp.
  repeat (case_bool_decide; simpl); done.
Qed.

(** X12: enabling the protection and disabling it again leaves the
    document with the listeners it had and the flag clear; enabling it
    once more registers closures that were never used before. *)
Theorem client_protection_round_trip (w : World) :
  _protectionHandlers w = None -> closures_allocated w ->
  listeners (disableClientProtection (enableClientProtection w)) = listeners w
  /\ _protectionHandlers (disableClientProtection (enableClientProtection w))
     = None
  /\ Forall (fun l => l ∉ listeners (enableClientProtection w))
       (installed
          (enableClientProtection
             (disableClientProtection (enableClientProtection w)))).
Proof.
  intros Hp Ha.
  assert (registration (listeners w) w) as Hr.
  { unfold registration, installed. rewrite Hp, app_nil_r.
    split; [done|]. split; [done|constructor]. }
  pose proof (enableClientProtection_registration _ _ Hr) as (H1 & A1 & _).
  pose proof (disableClientProtection_registration _ _
                (enableClientProtection_registration _ _ Hr)) as Hr2.
  pose proof Hr2 as (H2 & A2 & _).
  rewrite disableClientProtection_clears_flag in *.
  unfold installed in H2 at 1.
  rewrite disableClientProtection_clears_flag, app_nil_r in H2.
  split; [done|]. split; [done|].
  set (w2 := disableClientProtection (enableClientProtection w)) in *.
  assert (_protectionHandlers w2 = None) as Hp2
    by apply disableClientProtection_clears_flag.
  assert (next_closure w2 = next_closure (enableClientProtection w)) as Hn.
  { unfold w2, disableClientProtection.
    by destruct (_protectionHandlers (enableClientProtection w)) as [[a b]|]. }
  unfold installed. rewrite (enableClientProtection_fresh_pair w2 Hp2).
  repeat constructor;
    apply (fresh_closure_not_registered _ (next_closure w2));
    simpl; try lia; by rewrite Hn.
Qed.

Lemma client_protection_round_trip_witness :
  listeners (disableClientProtection (enableClientProtection page))
  = listeners page.
Proof.
  exact (proj1 (client_protection_round_trip page eq_refl (List.Forall_nil _))).
Defined.

(** ** More on the responsive scale *)

Lemma spec_scale_monotone (aw1 ah1 aw2 ah2 : Q) :
  (aw1 <= aw2)%Q -> (ah1 <= ah2)%Q ->
  (spec_scale aw1 ah1 <= spec_scale aw2 ah2)%Q.
Proof.
  intros Hw Hh. unfold spec_scale.
  assert (Number_divide aw1 1123 <= Number_divide aw2 1123)%Q as Hx.
  { apply round_double_mono. apply Qmult_le_compat_r; [done|]. by vm_compute. }
  assert (Number_divide ah1 794 <= Number_divide ah2 794)%Q as Hy.
  { apply round_double_mono. apply Qmult_le_compat_r; [done|]. by vm_compute. }
  apply Q.max_le_compat_r. apply Q.min_le_compat_r.
  by apply Q.min_le_compat.
Qed.

(** A fit ratio reaches 1 exactly when the available size reaches the
    base size. *)
Lemma Number_divide_full (a b : Z) :
  0 < b ->
  (Number_divide (inject_Z (b - 1)) (inject_Z b) < 1)%Q ->
  (1 <= Number_divide (inject_Z a) (inject_Z b))%Q <-> b <= a.
Proof.
  intros Hb Hbelow.
  assert (0 < / inject_Z b)%Q as Hinv.
  { apply Qinv_lt_0_compat. change 0%Q with (inject_Z 0). by rewrite <- Zlt_Qlt. }
  split.
  - intros H1. destruct (Z.lt_ge_cases a b) as [Hlt|]; [exfalso|done].
    assert (Number_divide (inject_Z a) (inject_Z b)
            <= Number_divide (inject_Z (b - 1)) (inject_Z b))%Q as Hm.
    { apply round_double_mono. apply Qmult_le_compat_r; [|by apply Qlt_le_weak].
      rewrite <- Zle_Qle. lia. }
    lra.
  - intros Hle. apply (Qle_trans _ (round_double 1)); [by vm_compute|].
    apply round_double_mono.
    apply Qle_shift_div_l; [change 0%Q with (inject_Z 0); by rewrite <- Zlt_Qlt|].
    rewrite Qmult_1_l. by rewrite <- Zle_Qle.
Qed.

Lemma spec_scale_cases (aw ah : Z) :
  ((1 # 4 < spec_scale (inject_Z aw) (inject_Z ah))%Q ->
   (spec_scale (inject_Z aw) (inject_Z ah) * 1123
    <= inject_Z aw * (1 + (1 # 2 ^ 53)))%Q
   /\ (spec_scale (inject_Z aw) (inject_Z ah) * 794
       <= inject_Z ah * (1 + (1 # 2 ^ 53)))%Q)
  /\ ((spec_scale (inject_Z aw) (inject_Z ah) == 1)%Q
      <-> 1123 <= aw /\ 794 <= ah).
Proof.
  pose proof (Number_divide_full aw 1123 eq_refl eq_refl) as Fx.
  pose proof (Number_divide_full ah 794 eq_refl eq_refl) as Fy.
  pose proof (Number_divide_near (inject_Z aw) 1123) as Px.
  pose proof (Number_divide_near (inject_Z ah) 794) as Py.
  pose proof (proj2 (round_double_sign (inject_Z aw / 1123))) as Nx.
  pose proof (proj2 (round_double_sign (inject_Z ah / 794))) as Ny.
  assert (inject_Z aw / 1123 * 1123 == inject_Z aw)%Q as Hx by field.
  assert (inject_Z ah / 794 * 794 == inject_Z ah)%Q as Hy by field.
  unfold spec_scale. change (inject_Z 1123) with 1123%Q in *.
  change (inject_Z 794) with 794%Q in *.
  rewrite <- Fx, <- Fy. unfold Number_divide in *.
  change (1 # 2 ^ 53)%Q with (1 # 9007199254740992)%Q in *.
  revert Px Py Nx Ny Hx Hy.
  generalize (round_double (inject_Z aw / 1123)) (round_double (inject_Z ah / 794)).
  generalize (inject_Z aw / 1123)%Q (inject_Z ah / 794)%Q.
  generalize (inject_Z aw) (inject_Z ah).
  intros a b x y fx fy Px Py Nx Ny Hx Hy.
  pose proof (Q.min_spec fx fy) as S1. revert S1.
  generalize (Qmin fx fy). intros m1 S1.
  pose proof (Q.min_spec m1 1) as S2. revert S2.
  generalize (Qmin m1 1). intros m2 S2.
  pose proof (Q.max_spec m2 (1 # 4)) as S3. revert S3.
  generalize (Qmax m2 (1 # 4)). intros m3 S3.
  destruct (Qlt_le_dec x 0) as [Hx0|Hx0];
    [specialize (Nx ltac:(lra)); clear Px|specialize (Px Hx0); clear Nx];
  (destruct (Qlt_le_dec y 0) as [Hy0|Hy0];
    [specialize (Ny ltac:(lra)); clear Py|specialize (Py Hy0); clear Ny]);
  destruct S1 as [[? ?]|[? ?]], S2 as [[? ?]|[? ?]], S3 as [[? ?]|[? ?]];
  repeat match goal with H : _ /\ _ |- _ => destruct H end;
  repeat split; intros;
  repeat match goal with H : _ /\ _ |- _ => destruct H end; lra.
Qed.

Lemma min_height_bounds (scale : Q) :
  (1 # 4 <= scale)%Q -> (scale <= 1)%Q ->
  (477 # 2 <= Number_add (Number_multiply 794 scale) 40
   /\ Number_add (Number_multiply 794 scale) 40 <= 834
   /\ Qabs (Number_add (Number_multiply 794 scale) 40 - (794 * scale + 40))
      <= 1 # 2 ^ 42)%Q.
Proof.
  intros Hlo Hhi. unfold Number_add, Number_multiply.
  assert (397 # 2 <= round_double (794 * scale))%Q as P1.
  { apply (Qle_trans _ (round_double (397 # 2))); [by vm_compute|].
    apply round_double_mono. lra. }
  assert (round_double (794 * scale) <= 794)%Q as P2.
  { apply (Qle_trans _ (round_double 794)); [|by vm_compute].
    apply round_double_mono. lra. }
  pose proof (round_double_error (794 * scale)) as E1.
  rewrite (Qabs_pos (794 * scale)) in E1 by lra.
  apply Qabs_Qle_condition in E1.
  revert P1 P2 E1. generalize (round_double (794 * scale)). intros p P1 P2 E1.
  assert (477 # 2 <= round_double (p + 40))%Q as M1.
  { apply (Qle_trans _ (round_double (477 # 2))); [by vm_compute|].
    apply round_double_mono. lra. }
  assert (round_double (p + 40) <= 834)%Q as M2.
  { apply (Qle_trans _ (round_double 834)); [|by vm_compute].
    apply round_double_mono. lra. }
  pose proof (round_double_error (p + 40)) as E2.
  rewrite (Qabs_pos (p + 40)) in E2 by lra.
  apply Qabs_Qle_condition in E2.
  revert M1 M2 E2. generalize (round_double (p + 40)). intros m M1 M2 E2.
  change (1 # 2 ^ 53)%Q with (1 # 9007199254740992)%Q in *.
  change (1 # 2 ^ 42)%Q with (1 # 4398046511104)%Q.
  split; [done|]. split; [done|].
  apply Qabs_Qle_condition. destruct E1, E2. split; lra.
Qed.

(** X13: above the floor of 0.25 the scaled certificate fits the
    available space in both directions up to the rounding of the fit
    ratio, a relative 2^-53, and the factor is 1 exactly when the
    available space holds the full 1123 by 794 certificate. *)
Theorem responsive_scale_fits (viewportWidth viewportHeight : Z) :
  let availableWidth :=
    viewportWidth - (if viewportWidth <? 768 then 20 else 40) in
  let availableHeight :=
    viewportHeight - (if viewportWidth <? 768 then 100 else 200) in
  let scale := responsive_scale viewportWidth viewportHeight in
  ((1 # 4 < scale)%Q ->
   (scale * 1123 <= inject_Z availableWidth * (1 + (1 # 2 ^ 53)))%Q
   /\ (scale * 794 <= inject_Z availableHeight * (1 + (1 # 2 ^ 53)))%Q)
  /\ ((scale == 1)%Q <-> 1123 <= availableWidth /\ 794 <= availableHeight).
Proof.
  cbv zeta. rewrite !responsive_scale_spec. apply spec_scale_cases.
Qed.

Lemma responsive_scale_fits_witness :
  (responsive_scale 1000 700 * 1123 <= inject_Z 960 * (1 + (1 # 2 ^ 53)))%Q
  /\ (responsive_scale 1000 700 * 794 <= inject_Z 500 * (1 + (1 # 2 ^ 53)))%Q.
Proof.
  apply (proj1 (responsive_scale_fits 1000 700)). vm_compute. reflexivity.
Defined.

(** The rounding can make the scaled certificate exceed the available
    space: at 1400 by 399 the scaled height is above the 199 pixels that
    are available. *)
Example responsive_scale_overshoot :
  (responsive_scale 1400 399 == 4514943707036417 # 18014398509481984)%Q
  /\ (inject_Z 199 < responsive_scale 1400 399 * 794)%Q.
Proof. split; by vm_compute. Qed.

(** X14: a taller viewport never gives a smaller factor, and neither does
    a wider one as long as both widths lie on the same side of the 768
    pixel breakpoint, where the padding changes. *)
Theorem responsive_scale_monotone
  (viewportWidth1 viewportHeight1 viewportWidth2 viewportHeight2 : Z) :
  viewportWidth1 <= viewportWidth2 ->
  viewportHeight1 <= viewportHeight2 ->
  (viewportWidth1 <? 768) = (viewportWidth2 <? 768) ->
  (responsive_scale viewportWidth1 viewportHeight1
   <= responsive_scale viewportWidth2 viewportHeight2)%Q.
Proof.
  intros Hw Hh Hside. rewrite !responsive_scale_spec, Hside.
  apply spec_scale_monotone; rewrite <- Zle_Qle; lia.
Qed.

Lemma responsive_scale_monotone_witness :
  (responsive_scale 800 600 <= responsive_scale 1000 700)%Q.
Proof.
  apply responsive_scale_monotone; [lia|lia|reflexivity].
Defined.

(** Across the breakpoint a wider viewport can give a smaller factor. *)
Example responsive_scale_breakpoint :
  (responsive_scale 768 2000 < responsive_scale 767 2000)%Q.
Proof. by vm_compute. Qed.

(** X15: [applyResponsiveScale] is idempotent and does nothing on a page
    without the container; with container and wrapper present the
    wrapper's minimum height is the script's 794 times the factor plus 40
    pixels, the product and the sum each rounded to the nearest double:
    it lies between 238.5 and 834, within 2^-42 of the exact
    794 * factor + 40. *)
Theorem applyResponsiveScale_wrapper (h : Host) (w : World) :
  applyResponsiveScale h (applyResponsiveScale h w) = applyResponsiveScale h w
  /\ (container w = None -> applyResponsiveScale h w = w)
  /\ (is_Some (container w) -> is_Some (wrapper w) ->
      exists minHeight : Q,
        wrapper (applyResponsiveScale h w) = Some (Some minHeight)
        /\ minHeight
           = Number_add
               (Number_multiply 794
                  (responsive_scale (innerWidth h) (innerHeight h))) 40
        /\ (477 # 2 <= minHeight)%Q /\ (minHeight <= 834)%Q
        /\ (Qabs (minHeight
                  - (794 * responsive_scale (innerWidth h) (innerHeight h)
                     + 40))
            <= 1 # 2 ^ 42)%Q).
Proof.
  split; [|split].
  - unfold applyResponsiveScale.
    destruct (container w) as [t|] eqn:Hc; [|by rewrite Hc]. simpl.
    destruct (wrapper w) as [m|] eqn:Hm; simpl; [done|]. by rewrite Hm.
  - intros Hc. unfold applyResponsiveScale. by rewrite Hc.
  - intros [t Hc] [m Hm]. eexists. unfold applyResponsiveScale.
    rewrite Hc. simpl. rewrite Hm. simpl. split; [reflexivity|].
    split; [reflexivity|].
    pose proof (responsive_scale_spec (innerWidth h) (innerHeight h)) as Hs.
    destruct (spec_scale_bounds
      (inject_Z (innerWidth h - (if innerWidth h <? 768 then 20 else 40)))
      (inject_Z (innerHeight h - (if innerWidth h <? 768 then 100 else 200))))
      as [Hlo Hhi].
    rewrite <- Hs in Hlo, Hhi.
    destruct (min_height_bounds _ Hlo Hhi) as (B1 & B2 & B3). done.
Qed.

Lemma applyResponsiveScale_wrapper_witness :
  exists minHeight : Q,
    wrapper (applyResponsiveScale (host [] [] no_fault no_fault) page)
    = Some (Some minHeight)
    /\ (477 # 2 <= minHeight)%Q.
Proof.
  destruct (proj2 (proj2 (applyResponsiveScale_wrapper
              (host [] [] no_fault no_fault) page))
              (ex_intro _ None eq_refl) (ex_intro _ None eq_refl))
    as (m & Hm & _ & Hlo & _).
  exists m. split; [exact Hm|exact Hlo].
Defined.

(** ** The page-wide error handler *)

(** X16: the window's error listener logs the error and then shows the
    error region only when the page has one and neither the certificate
    nor the loading region is visible: it never replaces a displayed
    certificate, and while the loading region is displayed it changes
    nothing either. *)
Theorem onGlobalError_effects (w : World) :
  result onGlobalError w = Normal ()
  /\ console (exec onGlobalError w) = console w ++ ["Global error:"]
  /\ (is_Some (errorState w) ->
      absent_or_hidden (certificateState w) = true ->
      absent_or_hidden (loadingState w) = true ->
      errorState (exec onGlobalError w) = Some "block"
      /\ in_state ERROR (exec onGlobalError w))
  /\ (errorState w = None
      \/ absent_or_hidden (certificateState w) = false
      \/ absent_or_hidden (loadingState w) = false ->
      (loadingState (exec onGlobalError w), errorState (exec onGlobalError w),
       certificateState (exec onGlobalError w))
      = (loadingState w, errorState w, certificateState w)).
Proof.
  unfold result, exec, onGlobalError, mbind, M_bind, console_error, modify, gets.
  simpl.
  destruct (errorState w) as [e|] eqn:He; simpl;
    destruct (absent_or_hidden (certificateState w)) eqn:Hc; simpl;
    destruct (absent_or_hidden (loadingState w)) eqn:Hl; simpl;
    rewrite ?He; repeat split; try done;
    try (by intros [?|[?|?]]); try (by intros [? ?]).
  all: apply (showError_in_state (set_console _ w)).
Qed.

Lemma onGlobalError_effects_witness :
  (loadingState (exec onGlobalError page), errorState (exec onGlobalError page),
   certificateState (exec onGlobalError page))
  = (loadingState page, errorState page, certificateState page)
  /\ errorState (exec onGlobalError (set_loadingState (Some "none") page))
     = Some "block".
Proof.
  split.
  - exact (proj2 (proj2 (proj2 (onGlobalError_effects page)))
             (or_intror (or_intror eq_refl))).
  - exact (proj1 (proj1 (proj2 (proj2 (onGlobalError_effects
             (set_loadingState (Some "none") page))))
             (ex_intro _ "none" eq_refl) eq_refl eq_refl)).
Defined.

(** ** Debouncing *)

Lemma last_cons {A : Type} (x : A) (l : list A) (d : A) :
  List.last (x :: l) d = List.last l x.
Proof.
  revert x d. induction l as [|y l IH]; intros x d; [done|].
  change (List.last (x :: y :: l) d) with (List.last (y :: l) d).
  rewrite IH. symmetry. apply IH.
Qed.

Lemma run_due_not_yet {A : Type} (now due : Z) (args : A) (s : Debounced A) :
  armed due args s -> now < due -> run_due now s = s.
Proof.
  intros (id & _ & Ht) Hlt. unfold run_due. rewrite Ht.
  rewrite filter_cons_False by (simpl; lia). by rewrite filter_nil.
Qed.

Lemma executedFunction_rearms {A : Type} (wait now due : Z) (args args' : A)
  (s : Debounced A) :
  armed due args s ->
  armed (now + wait) args' (executedFunction wait now args' s)
  /\ invoked (executedFunction wait now args' s) = invoked s.
Proof.
  intros (id & Hid & Ht). split; [|done].
  exists (next_timer s). split; [done|].
  unfold executedFunction. simpl. rewrite Hid, Ht. simpl.
  rewrite filter_cons_False by (simpl; intros Hne; by apply Hne).
  by rewrite filter_nil.
Qed.

Lemma run_due_fires {A : Type} (now due : Z) (args : A) (s : Debounced A) :
  armed due args s -> due <= now ->
  invoked (run_due now s) = invoked s ++ [args] /\ timers (run_due now s) = [].
Proof.
  intros (id & Hid & Ht) Hle. unfold run_due. rewrite Ht.
  rewrite filter_cons_True by (simpl; lia). rewrite filter_nil.
  cbn [foldl]. rewrite Ht. cbn [fmap list_fmap fst snd].
  rewrite bool_decide_eq_true_2 by apply list_elem_of_here.
  unfold later. simpl. rewrite Ht, Hid. simpl.
  rewrite filter_cons_False by (simpl; intros Hne; by apply Hne).
  by rewrite filter_nil.
Qed.

Lemma burst_rearms {A : Type} (wait : Z) (rest : list (Z * A)) (first : Z)
  (args : A) (s : Debounced A) :
  burst wait first rest -> armed (first + wait) args s ->
  armed (List.last (fst <$> rest) first + wait)
    (List.last (snd <$> rest) args)
    (foldl (tick wait) s ((fun e => Resize e.1 e.2) <$> rest))
  /\ invoked (foldl (tick wait) s ((fun e => Resize e.1 e.2) <$> rest))
     = invoked s.
Proof.
  revert first args s.
  induction rest as [|[t a] rest IH]; intros first args s Hb Ha; [done|].
  destruct Hb as [[Hle Hlt] Hb]. cbn [fmap list_fmap foldl tick fst snd].
  rewrite (run_due_not_yet t (first + wait) args s Ha Hlt).
  destruct (executedFunction_rearms wait t (first + wait) args a s Ha)
    as [Ha' Hi'].
  destruct (IH t a _ Hb Ha') as [Hl Hinv].
  rewrite Hinv, Hi'. split; [|done].
  by rewrite !last_cons.
Qed.

(** X17: resize events that follow one another within less than the wait
    call the debounced function not at all while the burst lasts, and
    exactly once after it, with the arguments of the last event; no timer
    is left pending. *)
Theorem debounce_burst_fires_once {A : Type} (wait first : Z) (args : A)
  (rest : list (Z * A)) (now : Z) :
  burst wait first rest ->
  List.last (fst <$> rest) first + wait <= now ->
  let events := Resize first args :: ((fun e => Resize e.1 e.2) <$> rest) in
  invoked (foldl (tick wait) debounce events) = []
  /\ invoked (foldl (tick wait) debounce (events ++ [Idle now]))
     = [List.last (snd <$> rest) args]
  /\ timers (foldl (tick wait) debounce (events ++ [Idle now])) = [].
Proof.
  intros Hb Hnow. cbv zeta.
  assert (armed (first + wait) args (tick wait debounce (Resize first args)))
    as Ha by (by exists 0%nat).
  destruct (burst_rearms wait rest first args _ Hb Ha) as [Hl Hinv].
  rewrite foldl_app. cbn [foldl]. rewrite Hinv. split; [done|].
  destruct (run_due_fires now _ _ _ Hl Hnow) as [Hf Ht].
  change (tick wait ?s (Idle now)) with (run_due now s).
  rewrite Hf, Ht, Hinv. done.
Qed.

Lemma debounce_burst_fires_once_witness :
  invoked (foldl (tick 250) debounce
             [Resize 0 "a"; Resize 100 "b"; Resize 300 "c"; Idle 550])
  = ["c"].
Proof.
  refine (proj1 (proj2 (debounce_burst_fires_once 250 0 "a"
            [(100, "b"); (300, "c")] 550 _ _))).
  - simpl. lia.
  - simpl. lia.
Defined.

(** Two events further apart than the wait each reach the function. *)
Example debounce_separate_events :
  invoked (foldl (tick 250) debounce
             [Resize 0 "a"; Resize 400 "b"; Idle 1000])
  = ["a"; "b"].
Proof. reflexivity. Qed.

Lemma run_due_idle {A : Type} (now : Z) (s : Debounced A) :
  timers s = [] -> run_due now s = s.
Proof. intros Ht. unfold run_due. by rewrite Ht. Qed.

(** Between two steps either no timer is pending or exactly the one
    [timeout] names, and every call of the function or pending timer is
    accounted for by a resize event. *)
Lemma tick_invariant {A : Type} (wait : Z) (s : Debounced A) (t : Tick A)
  (n : nat) :
  (timers s = [] \/ exists due args, armed due args s) ->
  (List.length (invoked s) + List.length (timers s) <= n)%nat ->
  (timers (tick wait s t) = [] \/ exists due args, armed due args (tick wait s t))
  /\ (List.length (invoked (tick wait s t)) + List.length (timers (tick wait s t))
      <= n + (if is_resize t then 1 else 0))%nat.
Proof.
  intros Hs Hn.
  assert (forall now,
            (timers (run_due now s) = []
             \/ exists due args, armed due args (run_due now s))
            /\ (List.length (invoked (run_due now s))
                + List.length (timers (run_due now s)) <= n)%nat) as Hrun.
  { intros now. destruct Hs as [Hs|(due & args & Ha)].
    - rewrite (run_due_idle now s Hs). split; [by left|done].
    - destruct (decide (due <= now)) as [Hd|Hd].
      + destruct (run_due_fires now due args s Ha Hd) as [Hi Ht].
        rewrite Hi, Ht, length_app. split; [by left|].
        destruct Ha as (id & _ & Hts). rewrite Hts in Hn. simpl in *. lia.
      + rewrite (run_due_not_yet now due args s Ha) by lia.
        split; [right; by exists due, args|done]. }
  destruct t as [now args|now]; cbn [tick is_resize].
  - destruct (Hrun now) as [Hs' Hn']. split.
    + right. exists (now + wait), args.
      destruct Hs' as [Ht|(due & args' & Ha)].
      * exists (next_timer (run_due now s)). split; [done|].
        unfold executedFunction. simpl. rewrite Ht.
        by destruct (timeout (run_due now s)).
      * by apply (executedFunction_rearms wait now due args').
    + destruct Hs' as [Ht|(due & args' & Ha)].
      * unfold executedFunction. simpl. rewrite Ht in *.
        destruct (timeout (run_due now s)); simpl in *; lia.
      * destruct (executedFunction_rearms wait now due args' args _ Ha)
          as [(id & _ & Hts) Hi].
        destruct Ha as (id' & _ & Hts'). rewrite Hi, Hts. rewrite Hts' in Hn'.
        simpl in *. lia.
  - destruct (Hrun now) as [Hs' Hn']. split; [done|lia].
Qed.

(** X18: whatever events arrive and however time passes, at most one
    timer is ever pending, and the debounced function has been called at
    most as often as resize events have occurred. *)
Theorem debounce_single_timer {A : Type} (wait : Z) (events : list (Tick A)) :
  (List.length (timers (foldl (tick wait) debounce events)) <= 1)%nat
  /\ (List.length (invoked (foldl (tick wait) debounce events))
      <= List.length (filter (fun t => is_resize t = true) events))%nat.
Proof.
  assert (forall (s : Debounced A) n,
            (timers s = [] \/ exists due args, armed due args s) ->
            (List.length (invoked s) + List.length (timers s) <= n)%nat ->
            (timers (foldl (tick wait) s events) = []
             \/ exists due args, armed due args (foldl (tick wait) s events))
            /\ (List.length (invoked (foldl (tick wait) s events))
                + List.length (timers (foldl (tick wait) s events))
                <= n + List.length (filter (fun t => is_resize t = true) events))%nat)
    as Hall.
  { induction events as [|t events IH]; intros s n Hs Hn.
    - simpl. split; [done|lia].
    - cbn [foldl].
      destruct (tick_invariant wait s t n Hs Hn) as [Hs' Hn'].
      destruct (IH _ _ Hs' Hn') as [Hs'' Hn'']. split; [done|].
      destruct t as [now args|now]; cbn [is_resize] in *.
      + rewrite filter_cons_True by done. cbn [List.length]. lia.
      + rewrite filter_cons_False by done. lia. }
  destruct (Hall debounce 0%nat (or_introl eq_refl)) as [Hs Hn]; [simpl; lia|].
  split; [|lia].
  destruct Hs as [->|(due & args & id & _ & ->)]; simpl; lia.
Qed.

(** ** More on the export pipeline *)

Lemma enableClientProtection_keeps_page (w : World) :
  cursor (enableClientProtection w) = cursor w
  /\ console (enableClientProtection w) = console w
  /\ textContent (enableClientProtection w) = textContent w
  /\ container (enableClientProtection w) = container w.
Proof.
  unfold enableClientProtection, addEventListener.
  destruct (_protectionHandlers w); [done|].
  repeat (case_bool_decide; simpl); done.
Qed.

(** What a run of [downloadCertificate] leaves of the cursor, the console
    and the trace. *)
Lemma downloadCertificate_outcome (h : Host) (format : jsstring) (w : World)
  (el : option Q) :
  container w = Some el ->
  exists w3 : World,
    downloadCertificate h format w = (Normal (), enableClientProtection w3)
    /\ cursor w3 = (if export_fails h format then "wait" else cursor w)
    /\ console w3
       = console w ++ (if export_fails h format then ["Download failed:"] else [])
    /\ trace w3
       = trace w ++ (if export_raises h Rasterize then []
                     else EvRasterize ::
                          (if export_fails h format then []
                           else export_download format w)).
Proof.
  intros Hc.
  destruct (append_then_remove (body_children w)) as [Hin Hrm].
  unfold downloadCertificate, export_fails, export_download, filename_base.
  unfold try_finally, try_catch, removeChild, guard_raise, emit, alert,
    console_error, modify, gets, mbind, M_bind, mret, M_ret, throw, appendChild.
  rewrite Hc.
  remember (fresh_node (body_children w)) as clone eqn:Eclone.
  remember (filter (fun x => x ≠ clone) (body_children w) ++ [clone])
    as children eqn:Echildren.
  repeat export_step.
  all: simpl.
  all: rewrite (bool_decide_eq_true_2 _ Hin); simpl; rewrite Hrm.
  all: eexists; split; [reflexivity|]; simpl.
  all: split; [reflexivity|].
  all: split; [by rewrite ?app_nil_r|].
  all: first [by rewrite app_nil_r | by rewrite <- app_assoc | reflexivity].
Qed.

(** X19: a run of [downloadCertificate] in which nothing raises
    rasterises once and then records one download named after the
    recipient and the identifier shown on the page, with the extension of
    the format; a format other than [jpg] and [pdf] rasterises and then
    downloads nothing, without any message.  The cursor is put back and
    nothing is logged. *)
Theorem downloadCertificate_success
  (h : Host) (format : jsstring) (w : World) (el : option Q) :
  container w = Some el ->
  export_fails h format = false ->
  trace (exec (downloadCertificate h format) w)
  = trace w ++ EvRasterize :: export_download format w
  /\ (format <> js "jpg" -> format <> js "pdf" ->
      trace (exec (downloadCertificate h format) w) = trace w ++ [EvRasterize])
  /\ cursor (exec (downloadCertificate h format) w) = cursor w
  /\ console (exec (downloadCertificate h format) w) = console w.
Proof.
  intros Hc Hf.
  destruct (downloadCertificate_outcome h format w el Hc)
    as (w3 & Hrun & Hcur & Hcon & Htr).
  destruct (enableClientProtection_frame w3) as (_ & _ & _ & Ft & _).
  destruct (enableClientProtection_keeps_page w3) as (Fc & Fo & _).
  unfold exec. rewrite Hrun. cbn [snd].
  rewrite Ft, Fc, Fo, Hcur, Hcon, Htr, Hf.
  assert (export_raises h Rasterize = false) as ->.
  { unfold export_fails in Hf. by apply orb_false_elim in Hf as [? _]. }
  split; [done|]. split; [|by rewrite app_nil_r].
  intros Hj Hp. unfold export_download, str_eq.
  by rewrite !bool_decide_eq_false_2.
Qed.

Lemma downloadCertificate_success_witness :
  trace (exec (downloadCertificate (host [] [] no_fault no_fault) (js "jpg"))
           page)
  = trace page ++ EvRasterize :: export_download (js "jpg") page.
Proof.
  exact (proj1 (downloadCertificate_success (host [] [] no_fault no_fault)
                  (js "jpg") page None eq_refl eq_refl)).
Defined.

(** X20: when a call of the export raises, the cursor is not put back: it
    stays at [wait] after the run; the failure is logged once. *)
Theorem downloadCertificate_failure_keeps_wait_cursor
  (h : Host) (format : jsstring) (w : World) (el : option Q) :
  container w = Some el ->
  export_fails h format = true ->
  cursor (exec (downloadCertificate h format) w) = "wait"
  /\ console (exec (downloadCertificate h format) w)
     = console w ++ ["Download failed:"].
Proof.
  intros Hc Hf.
  destruct (downloadCertificate_outcome h format w el Hc)
    as (w3 & Hrun & Hcur & Hcon & _).
  destruct (enableClientProtection_keeps_page w3) as (Fc & Fo & _).
  unfold exec. rewrite Hrun. cbn [snd].
  by rewrite Fc, Fo, Hcur, Hcon, Hf.
Qed.

Lemma downloadCertificate_failure_keeps_wait_cursor_witness :
  cursor (exec (downloadCertificate (host [] [] no_fault rasterize_raises)
                  (js "jpg")) page) = "wait".
Proof.
  exact (proj1 (downloadCertificate_failure_keeps_wait_cursor
                  (host [] [] no_fault rasterize_raises) (js "jpg") page None
                  eq_refl eq_refl)).
Defined.

(** X21: on a page without the certificate container
    [downloadCertificate] raises one alert and does nothing else; on a
    page with it, every run ends with the deterrent handlers installed,
    also when none were installed before. *)
Theorem downloadCertificate_guard_and_protection
  (h : Host) (format : jsstring) (w : World) :
  (container w = None ->
   downloadCertificate h format w
   = (Normal (),
      set_alerts
        (alerts w
         ++ ["Certificate not found. Please ensure the certificate is loaded."])
        w))
  /\ (is_Some (container w) ->
      is_Some (_protectionHandlers (exec (downloadCertificate h format) w))).
Proof.
  split.
  - intros Hc. unfold downloadCertificate, mbind, M_bind, gets. by rewrite Hc.
  - intros [el Hc].
    destruct (downloadCertificate_outcome h format w el Hc) as (w3 & Hrun & _).
    unfold exec. rewrite Hrun. apply enableClientProtection_sets_flag.
Qed.

Lemma downloadCertificate_guard_and_protection_witness :
  is_Some (_protectionHandlers
             (exec (downloadCertificate (host [] [] no_fault no_fault)
                      (js "pdf")) page))
  /\ alerts (exec (downloadCertificate (host [] [] no_fault no_fault)
                      (js "pdf")) (set_container None page))
     = ["Certificate not found. Please ensure the certificate is loaded."].
Proof.
  split.
  - exact (proj2 (downloadCertificate_guard_and_protection
                    (host [] [] no_fault no_fault) (js "pdf") page)
             (ex_intro _ None eq_refl)).
  - unfold exec.
    rewrite (proj1 (downloadCertificate_guard_and_protection
                      (host [] [] no_fault no_fault) (js "pdf")
                      (set_container None page)) eq_refl).
    reflexivity.
Defined.

(** X22: in the file name the recipient's name carries no white space:
    every run of white space has become one underscore.  A name without
    white space is kept as it is, and the result is never longer than the
    name. *)
Theorem underscore_runs_no_whitespace (in_run : bool) (s : jsstring) :
  Forall (fun c => is_ws c = false) (underscore_runs in_run s)
  /\ (Forall (fun c => is_ws c = false) s -> underscore_runs in_run s = s)
  /\ (List.length (underscore_runs in_run s) <= List.length s)%nat.
Proof.
  split; [|split].
  - revert in_run. induction s as [|c s IH]; intros in_run; [constructor|].
    cbn [underscore_runs]. destruct (is_ws c) eqn:Hc.
    + destruct in_run; [apply IH|]. constructor; [reflexivity|apply IH].
    + constructor; [done|apply IH].
  - intros Hs. revert in_run. induction Hs as [|c s Hc _ IH]; intros in_run;
      [done|].
    cbn [underscore_runs]. rewrite Hc. by rewrite IH.
  - revert in_run. induction s as [|c s IH]; intros in_run; [done|].
    cbn [underscore_runs]. destruct (is_ws c).
    + destruct in_run; cbn [List.length]; [specialize (IH true)|
                                           specialize (IH true)]; lia.
    + cbn [List.length]. specialize (IH false). lia.
Qed.

Lemma underscore_runs_no_whitespace_witness :
  underscore_runs false (js "Jane") = js "Jane".
Proof.
  apply (proj1 (proj2 (underscore_runs_no_whitespace false (js "Jane")))).
  repeat constructor.
Defined.

(** Runs of white space collapse to single underscores. *)
Example underscore_runs_collapses :
  underscore_runs false (js "Jane  Mary Doe ") = js "Jane_Mary_Doe_".
Proof. reflexivity. Qed.

(** ** Copying the page address *)

(** X23: [copyCurrentUrl] never raises and leaves the children of the body
    as they were: the text area of the fallback path is removed whether
    [execCommand] succeeds, fails or raises.  The promise is fulfilled
    exactly when the clipboard API is usable and its write succeeds, or it
    is not usable and [execCommand] reports success. *)
Theorem copyCurrentUrl_cleans_up (c : ClipboardHost) (w : World) :
  body_children (exec (copyCurrentUrl c) w) = body_children w
  /\ result (copyCurrentUrl c) w
     = Normal (if has_clipboard c && isSecureContext c
               then (if writeText_succeeds c then Fulfilled else Rejected)
               else (if bool_decide (execCommand_copy c = Some true)
                     then Fulfilled else Rejected)).
Proof.
  destruct (append_then_remove (body_children w)) as [Hin Hrm].
  unfold exec, result, copyCurrentUrl.
  destruct (has_clipboard c && isSecureContext c); [done|].
  unfold try_catch, removeChild, modify, gets, mbind, M_bind, mret, M_ret,
    throw, appendChild.
  remember (fresh_node (body_children w)) as textArea eqn:Earea.
  remember (filter (fun x => x ≠ textArea) (body_children w) ++ [textArea])
    as children eqn:Echildren.
  destruct (execCommand_copy c) as [[|]|]; simpl;
    rewrite (bool_decide_eq_true_2 _ Hin); simpl; by rewrite Hrm.
Qed.

(** ** More on the form gate *)

(** X24: white space around either field does not change what
    [handleFormSubmit] does: a padded submission is handled exactly as the
    bare one. *)
Theorem handleFormSubmit_ignores_padding
  (id key a b a' b' : jsstring) (w : World) :
  all_ws a -> all_ws b -> all_ws a' -> all_ws b' ->
  handleFormSubmit (mkForm (Some (a ++ id ++ b)) (Some (a' ++ key ++ b'))) w
  = handleFormSubmit (mkForm (Some id) (Some key)) w.
Proof.
  intros Ha Hb Ha' Hb'. unfold handleFormSubmit.
  cbn [form_certificateId form_certificateKey fmap option_fmap option_map].
  by rewrite !trim_surrounding_ws.
Qed.

Lemma handleFormSubmit_ignores_padding_witness :
  handleFormSubmit
    (mkForm (Some (js "  " ++ js "PTSC2025-0123" ++ js " "))
       (Some ([] ++ js "ABCDEFGHIJ" ++ js " "))) page
  = handleFormSubmit
      (mkForm (Some (js "PTSC2025-0123")) (Some (js "ABCDEFGHIJ"))) page.
Proof.
  apply handleFormSubmit_ignores_padding; repeat constructor.
Defined.

(** X25: [handleFormSubmit] never raises and never reaches its [catch]
    block: nothing is logged, and every submission ends in exactly one of
    two ways, one alert with the location untouched, or the location
    assigned with no alert. *)
Theorem handleFormSubmit_never_fails (form : Form) (w : World) :
  result (handleFormSubmit form) w = Normal ()
  /\ console (exec (handleFormSubmit form) w) = console w
  /\ ((exists msg : string,
         exec (handleFormSubmit form) w = set_alerts (alerts w ++ [msg]) w)
      \/ (exists url : jsstring,
            exec (handleFormSubmit form) w = set_location_href (Some url) w)).
Proof.
  assert ((exists msg : string,
             handleFormSubmit form w
             = (Normal (), set_alerts (alerts w ++ [msg]) w))
          \/ (exists url : jsstring,
                handleFormSubmit form w
                = (Normal (), set_location_href (Some url) w))) as Hrun.
  { destruct (trim <$> form_certificateId form) as [id|] eqn:Hi;
      [destruct (trim <$> form_certificateKey form) as [key|] eqn:Hk|].
    - destruct (regex_test id_pattern id) eqn:Hid;
        [destruct (regex_test key_pattern key) eqn:Hkey|].
      + right. eexists. apply (handleFormSubmit_accepts form w id key).
        split; [done|]. split; [done|].
        split; [by apply id_pattern_spec|by apply key_pattern_spec].
      + left. apply handleFormSubmit_rejects. intros (i & k & Hi' & Hk' & _ & Hv).
        rewrite Hk in Hk'. injection Hk' as <-.
        apply key_pattern_spec in Hv. congruence.
      + left. apply handleFormSubmit_rejects. intros (i & k & Hi' & _ & Hv & _).
        rewrite Hi in Hi'. injection Hi' as <-.
        apply id_pattern_spec in Hv. congruence.
    - left. apply handleFormSubmit_rejects. intros (i & k & _ & Hk' & _).
      by rewrite Hk in Hk'.
    - left. apply handleFormSubmit_rejects. intros (i & k & Hi' & _).
      by rewrite Hi in Hi'. }
  unfold result, exec.
  destruct Hrun as [[msg ->]|[url ->]]; simpl.
  - split; [done|]. split; [done|]. left. by exists msg.
  - split; [done|]. split; [done|]. right. by exists url.
Qed.

(** ** From the form to the certificate *)

(** X26: the stages compose.  When the form gate accepts an identifier
    and a key, and the verification page is opened with exactly these two
    parameters on a collection that holds a record with this identifier
    and key, [verifyCertificate] ends in the CERTIFICATE state. *)
Theorem gate_then_verify (form : Form) (h : Host) (w : World)
  (id key : jsstring) (certs : list Certificate) (c : Certificate) :
  gate_accepts form id key ->
  search_entries h = [(js "id", id); (js "key", key)] ->
  fetched h = FetchOk (mkData (Some certs)) ->
  c ∈ certs -> cert_id c = Some id -> cert_key c = Some key ->
  in_state CERTIFICATE (exec (verifyCertificate h) w)
  /\ certificateState (exec (verifyCertificate h) w)
     = style_set "block" (certificateState w).
Proof.
  intros (_ & _ & Hid & Hkey) Hs Hf Hin Hci Hck.
  destruct id_key_not_inherited as [Pi Pk].
  assert (get (parseURLParams h) (js "id") = VString id) as Gi.
  { unfold get, parseURLParams. rewrite Hs. cbn [foldl].
    rewrite parseURLParams_step_other by discriminate.
    rewrite parseURLParams_step_binds; [done|done|by left]. }
  assert (get (parseURLParams h) (js "key") = VString key) as Gk.
  { unfold get, parseURLParams. rewrite Hs. cbn [foldl].
    rewrite parseURLParams_step_binds; [done|done|].
    left. by rewrite parseURLParams_step_other by discriminate. }
  pose proof (identifier_truthy id Hid) as Ti.
  pose proof (key_truthy key Hkey) as Tk.
  assert (is_Some (lookup_certificate h (VString id) (VString key))) as Hl.
  { unfold lookup_certificate. rewrite Hf.
    rewrite bool_decide_eq_true_2 by done. cbn [text_of].
    destruct (list_find _ certs) as [[i x]|] eqn:Hfind; [by eexists|].
    apply list_find_None in Hfind. rewrite Forall_forall in Hfind.
    exfalso. apply (Hfind c Hin). unfold exact_match. by rewrite Hci, Hck. }
  pose proof (verifyCertificate_run_present h w) as Hrun.
  rewrite Gi, Gk in Hrun. specialize (Hrun Ti Tk). cbv zeta in Hrun.
  destruct Hl as [c' Hl]. rewrite Hl in Hrun.
  destruct (searching_regions h (VString id) (VString key) w) as (Sl & Se & Sc).
  set (searching := exec (validateCertificate h (VString id) (VString key))
                      (set_trace (trace (showLoading w) ++ [EvDelay 1000])
                         (showLoading w))) in *.
  assert (exec (verifyCertificate h) w
          = exec (showCertificate h)
              (exec (updateCertificateDisplay h c') searching)) as ->
    by (unfold exec at 1; by rewrite Hrun).
  destruct (showCertificate_regions h
              (exec (updateCertificateDisplay h c') searching))
    as (Rl & Re & Rc & _).
  pose proof (updateCertificateDisplay_keeps regions_present h c'
                (fun _ _ => eq_refl) (fun _ _ => eq_refl)
                (fun _ _ => eq_refl) (fun _ _ => eq_refl)
                regions_present_showError searching) as Hk.
  destruct (regions_present_style "none" _ _ Hk) as (Pl & Pe & _).
  destruct (regions_present_style "block" _ _ Hk) as (_ & _ & Pc).
  rewrite Pl in Rl. rewrite Pe in Re. rewrite Pc in Rc.
  rewrite Sl, style_set_twice in Rl. rewrite Se, style_set_twice in Re.
  rewrite Sc, style_set_twice in Rc.
  split; [by apply (in_state_of_regions CERTIFICATE _ w)|done].
Qed.

Lemma gate_then_verify_witness :
  in_state CERTIFICATE
    (exec (verifyCertificate
             (host [(js "id", js "PTSC2025-0001"); (js "key", js "AAAAAAAAAA")]
                [john; jane] no_fault no_fault)) page).
Proof.
  refine (proj1 (gate_then_verify
            (mkForm (Some (js "PTSC2025-0001 ")) (Some (js "AAAAAAAAAA")))
            (host [(js "id", js "PTSC2025-0001"); (js "key", js "AAAAAAAAAA")]
               [john; jane] no_fault no_fault) page
            (js "PTSC2025-0001") (js "AAAAAAAAAA") [john; jane] jane
            _ eq_refl eq_refl _ eq_refl eq_refl)).
  - split; [reflexivity|]. split; [reflexivity|]. split.
    + exists (js "2025"), (js "0001").
      split; [reflexivity|]. split; [reflexivity|].
      split; [repeat constructor|]. split; [repeat constructor|reflexivity].
    + split; [reflexivity|repeat constructor].
  - apply list_elem_of_further, list_elem_of_here.
Defined.

(** ** Social metadata *)

(** X27: [updateOpenGraphMeta] never raises; it sets the two metadata
    entries, creating them when the page has none, and changes no other
    entry.  A field the record lacks appears as the word [undefined]. *)
Theorem updateOpenGraphMeta_sets_both (c : Certificate) (w : World) :
  result (updateOpenGraphMeta c) w = Normal ()
  /\ meta (exec (updateOpenGraphMeta c) w) !! "og:title"
     = Some (interpolate (cert_name c) ++ js " - " ++
             interpolate (cert_type c) ++ js " - PTSC KNIT")
  /\ meta (exec (updateOpenGraphMeta c) w) !! "og:description"
     = Some (interpolate (cert_name c) ++ js " has successfully completed " ++
             interpolate (cert_event c) ++
             js " at Programming and Tech Skill Club, KNIT Sultanpur.")
  /\ (forall property : string,
        property <> "og:title" -> property <> "og:description" ->
        meta (exec (updateOpenGraphMeta c) w) !! property = meta w !! property)
  /\ (cert_name c = None ->
      exists rest, meta (exec (updateOpenGraphMeta c) w) !! "og:title"
                   = Some (js "undefined" ++ rest)).
Proof.
  unfold result, exec. rewrite updateOpenGraphMeta_run. cbn [fst snd meta set_meta].
  split; [done|]. split; [|split; [|split]].
  - rewrite lookup_insert_ne by discriminate. by rewrite lookup_insert_eq.
  - by rewrite lookup_insert_eq.
  - intros p H1 H2. by rewrite !lookup_insert_ne.
  - intros Hn. rewrite Hn. eexists.
    rewrite lookup_insert_ne by discriminate. by rewrite lookup_insert_eq.
Qed.

Lemma updateOpenGraphMeta_sets_both_witness :
  exists rest,
    meta (exec (updateOpenGraphMeta
                  (mkCertificate (Some (js "PTSC2025-0003"))
                     (Some (js "CCCCCCCCCC")) None None None None None))
            page) !! "og:title"
    = Some (js "undefined" ++ rest).
Proof.
  exact (proj2 (proj2 (proj2 (proj2 (updateOpenGraphMeta_sets_both
           (mkCertificate (Some (js "PTSC2025-0003"))
              (Some (js "CCCCCCCCCC")) None None None None None) page))))
           eq_refl).
Defined.
